(** * SimpleApp operator: the reconciler of [internal/controller] in Rocq

    A shallow embedding of [SimpleAppReconciler] (Reconcile, ensureDeployment,
    ensureService, ensureIngress) over an explicit model of the cluster: the
    API objects are records with the fields the controller reads or writes,
    the API server is a store of objects per kind, and every client call is
    logged and may fail with an error scheduled in advance. *)

From stdpp Require Import gmap strings list fin_maps.
From Stdlib Require Import ZArith.

Local Open Scope string_scope.
Local Open Scope list_scope.
Local Open Scope Z_scope.

(** ** Object keys *)

(** [client.ObjectKey] / [types.NamespacedName]: namespace first, then name. *)
Abbreviation ObjectKey := (string * string)%type.

(** ** k8s.io/apimachinery/pkg/apis/meta/v1 *)

Module OwnerReference.
Record t := mk {
  APIVersion : string;
  Kind : string;
  Name : string;
  UID : string;
  Controller : option bool;
  BlockOwnerDeletion : option bool }.
#[global] Instance eq_dec : EqDecision t.
Proof. solve_decision. Defined.
End OwnerReference.

Module ObjectMeta.
Record t := mk {
  Name : string;
  Namespace : string;
  UID : string;
  Labels : gmap string string;
  Annotations : gmap string string;
  OwnerReferences : list OwnerReference.t }.

(** The zero value of the struct with [Name] and [Namespace] filled in. *)
Definition named (name ns : string) : t :=
  mk name ns "" ∅ ∅ [].

Definition withLabels (l : gmap string string) (m : t) : t :=
  mk (Name m) (Namespace m) (UID m) l (Annotations m) (OwnerReferences m).

Definition withAnnotations (a : gmap string string) (m : t) : t :=
  mk (Name m) (Namespace m) (UID m) (Labels m) a (OwnerReferences m).

Definition withOwnerReferences (o : list OwnerReference.t) (m : t) : t :=
  mk (Name m) (Namespace m) (UID m) (Labels m) (Annotations m) o.

Definition key (m : t) : ObjectKey := (Namespace m, Name m).
End ObjectMeta.

Module LabelSelector.
Record t := mk { MatchLabels : gmap string string }.
End LabelSelector.

(** ** k8s.io/apimachinery/pkg/util/intstr *)

Module intstr.
Inductive Type_ := Int | String.
Record IntOrString := mk { Type' : Type_; IntVal : Z; StrVal : string }.
#[global] Instance Type_eq_dec : EqDecision Type_.
Proof. solve_decision. Defined.
#[global] Instance eq_dec : EqDecision IntOrString.
Proof. solve_decision. Defined.

(** [int32(val)]: the conversion keeps the low 32 bits, two's complement. *)
Definition int32 (v : Z) : Z := (v + 2 ^ 31) mod 2 ^ 32 - 2 ^ 31.

Definition FromInt (val : Z) : IntOrString := mk Int (int32 val) "".
End intstr.

(** ** k8s.io/api/core/v1 *)

Module ContainerPort.
Record t := mk { ContainerPort : Z }.
End ContainerPort.

Inductive PullPolicy := PullUnset | PullAlways | PullNever | PullIfNotPresent.

Module Container.
Record t := mk {
  Name : string;
  Image : string;
  ImagePullPolicy : PullPolicy;
  Ports : list ContainerPort.t }.

Definition withImage (i : string) (c : t) : t :=
  mk (Name c) i (ImagePullPolicy c) (Ports c).
End Container.

Module PodSpec.
Record t := mk { Containers : list Container.t }.
End PodSpec.

Module PodTemplateSpec.
Record t := mk { Meta : ObjectMeta.t; Spec : PodSpec.t }.
End PodTemplateSpec.

Module ServicePort.
Record t := mk { Port : Z; TargetPort : intstr.IntOrString }.
End ServicePort.

Inductive ServiceType :=
  ServiceTypeUnset | ServiceTypeClusterIP | ServiceTypeNodePort
| ServiceTypeLoadBalancer | ServiceTypeExternalName.

Module ServiceSpec.
Record t := mk {
  Selector : gmap string string;
  Ports : list ServicePort.t;
  Type' : ServiceType }.

Definition withPorts (p : list ServicePort.t) (s : t) : t :=
  mk (Selector s) p (Type' s).
End ServiceSpec.

Module Service.
Record t := mk { Meta : ObjectMeta.t; Spec : ServiceSpec.t }.
End Service.

(** ** k8s.io/api/apps/v1 *)

Module DeploymentSpec.
Record t := mk {
  Replicas : option Z;
  Selector : option LabelSelector.t;
  Template : PodTemplateSpec.t }.
End DeploymentSpec.

Module DeploymentStatus.
Record t := mk { ReadyReplicas : Z }.
End DeploymentStatus.

Module Deployment.
Record t := mk {
  Meta : ObjectMeta.t;
  Spec : DeploymentSpec.t;
  Status : DeploymentStatus.t }.
End Deployment.

(** ** k8s.io/api/networking/v1 *)

Inductive PathType := PathTypeExact | PathTypePrefix | PathTypeImplementationSpecific.

Module ServiceBackendPort.
Record t := mk { Number : Z }.
End ServiceBackendPort.

Module IngressServiceBackend.
Record t := mk { Name : string; Port : ServiceBackendPort.t }.
End IngressServiceBackend.

Module IngressBackend.
Record t := mk { Service : option IngressServiceBackend.t }.
End IngressBackend.

Module HTTPIngressPath.
Record t := mk {
  Path : string;
  PathType' : option PathType;
  Backend : IngressBackend.t }.
End HTTPIngressPath.

Module HTTPIngressRuleValue.
Record t := mk { Paths : list HTTPIngressPath.t }.
End HTTPIngressRuleValue.

Module IngressRule.
Record t := mk { Host : string; HTTP : option HTTPIngressRuleValue.t }.
End IngressRule.

Module IngressSpec.
Record t := mk {
  IngressClassName : option string;
  Rules : list IngressRule.t }.
End IngressSpec.

Module Ingress.
Record t := mk { Meta : ObjectMeta.t; Spec : IngressSpec.t }.
End Ingress.

(** ** api/v1: the SimpleApp custom resource *)

Module SimpleAppSpec.
Record t := mk {
  Image : string;
  Replicas : Z;
  ContainerPort : Z;
  ServicePort : Z }.
End SimpleAppSpec.

Module SimpleAppStatus.
Record t := mk {
  ReadyReplicas : Z;
  ServiceStatus : string }.
End SimpleAppStatus.

Module SimpleApp.
Record t := mk {
  Meta : ObjectMeta.t;
  Spec : SimpleAppSpec.t;
  Status : SimpleAppStatus.t }.
End SimpleApp.

(** ** Errors *)

(** A Go [error] value that is not nil. [ErrNotFound] is the class of
    errors for which [apierrors.IsNotFound] holds. *)
Inductive error :=
| ErrNotFound
| ErrAlreadyExists
| ErrConflict
| ErrOther (msg : string).

(** [client.IgnoreNotFound]: nil for nil and for not-found, the error
    itself otherwise. *)
Definition IgnoreNotFound (err : option error) : option error :=
  match err with
  | Some ErrNotFound => None
  | _ => err
  end.

(** ** The cluster and the client *)

(** The API server is a store of objects per kind, keyed by namespace and
    name. It keeps what it is sent: defaulting, admission and resource
    versions are not modelled; a rejected or failed call is one of the
    scheduled outcomes of [World]. *)

Inductive ObjectKind := KSimpleApp | KDeployment | KService | KIngress.

Inductive AnyObject :=
| ASimpleApp (a : SimpleApp.t)
| ADeployment (d : Deployment.t)
| AService (s : Service.t)
| AIngress (i : Ingress.t).

(** One entry per call made through [client.Client]. *)
Inductive ApiCall :=
| CallGet (k : ObjectKind) (key : ObjectKey)
| CallCreate (o : AnyObject)
| CallUpdate (o : AnyObject)
| CallStatusUpdate (o : AnyObject).

Record Cluster := mkCluster {
  simpleapps : gmap ObjectKey SimpleApp.t;
  deployments : gmap ObjectKey Deployment.t;
  services : gmap ObjectKey Service.t;
  ingresses : gmap ObjectKey Ingress.t }.

(** The world a reconciliation runs in: the objects stored by the API
    server, the process environment, the outcome scheduled for each of the
    coming API calls ([Some e]: the call fails with [e] and has no effect;
    [None], or no entry left: the server answers), and the calls made so
    far, oldest first. *)
Record World := mkWorld {
  cluster : Cluster;
  environ : gmap string string;
  faults : list (option error);
  calls : list ApiCall }.

Definition log (c : ApiCall) (w : World) : World :=
  mkWorld (cluster w) (environ w) (faults w) (calls w ++ [c]).

Definition pop_fault (w : World) : option error * World :=
  match faults w with
  | [] => (None, w)
  | f :: fs => (f, mkWorld (cluster w) (environ w) fs (calls w))
  end.

Definition set_cluster (c : Cluster) (w : World) : World :=
  mkWorld c (environ w) (faults w) (calls w).

(** [os.Getenv]: the empty string when the variable is not set. *)
Definition os_Getenv (name : string) (w : World) : string :=
  default "" (environ w !! name).

(** [client.Object]: what the client needs to know of a kind. *)
Class Object (T : Type) := {
  kindOf : ObjectKind;
  GetObjectMeta : T -> ObjectMeta.t;
  SetObjectMeta : ObjectMeta.t -> T -> T;
  objects : Cluster -> gmap ObjectKey T;
  set_objects : gmap ObjectKey T -> Cluster -> Cluster;
  inject : T -> AnyObject }.

#[global] Instance SimpleApp_Object : Object SimpleApp.t := {|
  kindOf := KSimpleApp;
  GetObjectMeta := SimpleApp.Meta;
  SetObjectMeta m a := SimpleApp.mk m (SimpleApp.Spec a) (SimpleApp.Status a);
  objects := simpleapps;
  set_objects m c := mkCluster m (deployments c) (services c) (ingresses c);
  inject := ASimpleApp |}.

#[global] Instance Deployment_Object : Object Deployment.t := {|
  kindOf := KDeployment;
  GetObjectMeta := Deployment.Meta;
  SetObjectMeta m d := Deployment.mk m (Deployment.Spec d) (Deployment.Status d);
  objects := deployments;
  set_objects m c := mkCluster (simpleapps c) m (services c) (ingresses c);
  inject := ADeployment |}.

#[global] Instance Service_Object : Object Service.t := {|
  kindOf := KService;
  GetObjectMeta := Service.Meta;
  SetObjectMeta m s := Service.mk m (Service.Spec s);
  objects := services;
  set_objects m c := mkCluster (simpleapps c) (deployments c) m (ingresses c);
  inject := AService |}.

#[global] Instance Ingress_Object : Object Ingress.t := {|
  kindOf := KIngress;
  GetObjectMeta := Ingress.Meta;
  SetObjectMeta m i := Ingress.mk m (Ingress.Spec i);
  objects := ingresses;
  set_objects m c := mkCluster (simpleapps c) (deployments c) (services c) m;
  inject := AIngress |}.

Definition keyOf {T} `{Object T} (o : T) : ObjectKey :=
  ObjectMeta.key (GetObjectMeta o).

Section Client.
Context {T : Type} `{Object T}.

(** [r.Get(ctx, key, &obj)]: the stored object, or not-found. *)
Definition Get (key : ObjectKey) (w : World) : (error + T) * World :=
  let '(f, w) := pop_fault (log (CallGet kindOf key) w) in
  match f with
  | Some e => (inl e, w)
  | None =>
      match objects (cluster w) !! key with
      | Some o => (inr o, w)
      | None => (inl ErrNotFound, w)
      end
  end.

(** [r.Create(ctx, obj)]: stores the object under its key; refused when
    the key is taken. *)
Definition Create (obj : T) (w : World) : option error * World :=
  let '(f, w) := pop_fault (log (CallCreate (inject obj)) w) in
  match f with
  | Some e => (Some e, w)
  | None =>
      match objects (cluster w) !! keyOf obj with
      | Some _ => (Some ErrAlreadyExists, w)
      | None =>
          (None, set_cluster (set_objects (<[keyOf obj := obj]> (objects (cluster w))) (cluster w)) w)
      end
  end.

(** [r.Update(ctx, obj)]: replaces the stored object; refused when there
    is none. *)
Definition Update (obj : T) (w : World) : option error * World :=
  let '(f, w) := pop_fault (log (CallUpdate (inject obj)) w) in
  match f with
  | Some e => (Some e, w)
  | None =>
      match objects (cluster w) !! keyOf obj with
      | Some _ =>
          (None, set_cluster (set_objects (<[keyOf obj := obj]> (objects (cluster w))) (cluster w)) w)
      | None => (Some ErrNotFound, w)
      end
  end.

End Client.

(** [r.Status().Update(ctx, &simpleApp)]: the status subresource; only the
    status of the stored declaration is replaced. *)
Definition StatusUpdate (obj : SimpleApp.t) (w : World) : option error * World :=
  let '(f, w) := pop_fault (log (CallStatusUpdate (ASimpleApp obj)) w) in
  match f with
  | Some e => (Some e, w)
  | None =>
      match simpleapps (cluster w) !! keyOf obj with
      | Some old =>
          let new := SimpleApp.mk (SimpleApp.Meta old) (SimpleApp.Spec old) (SimpleApp.Status obj) in
          (None, set_cluster (set_objects (<[keyOf obj := new]> (simpleapps (cluster w))) (cluster w)) w)
      | None => (Some ErrNotFound, w)
      end
  end.

(** ** sigs.k8s.io/controller-runtime: SetControllerReference *)

Module GroupVersionKind.
Record t := mk { Group : string; Version : string; Kind : string }.

(** [gvk.GroupVersion().String()] *)
Definition GroupVersionString (g : t) : string :=
  if bool_decide (Group g = "") then Version g else Group g +:+ "/" +:+ Version g.
End GroupVersionKind.

(** [runtime.Scheme], as far as the reconciler uses it: the kinds the
    SimpleApp type is registered under. *)
Record Scheme := mkScheme { ObjectKinds : list GroupVersionKind.t }.

Definition GVKForObject (scheme : Scheme) : error + GroupVersionKind.t :=
  match ObjectKinds scheme with
  | [] => inl (ErrOther "no kind is registered for the type")
  | [g] => inr g
  | _ => inl (ErrOther "multiple group-version-kinds associated with type")
  end.

Definition validateOwner (owner object : ObjectMeta.t) : option error :=
  let ownerNs := ObjectMeta.Namespace owner in
  if bool_decide (ownerNs = "") then None
  else
    let objNs := ObjectMeta.Namespace object in
    if bool_decide (objNs = "") then
      Some (ErrOther "cluster-scoped resource must not have a namespace-scoped owner")
    else if bool_decide (ownerNs = objNs) then None
    else Some (ErrOther "cross-namespace owner references are disallowed").

Definition isController (ref : OwnerReference.t) : bool :=
  match OwnerReference.Controller ref with
  | Some true => true
  | _ => false
  end.

(** Same group, kind and name; the version of the API group is ignored. *)
Definition group_of (apiVersion : string) : string :=
  match String.index 0 "/" apiVersion with
  | Some n => String.substring 0 n apiVersion
  | None => ""
  end.

Definition referSameObject (a b : OwnerReference.t) : bool :=
  bool_decide (group_of (OwnerReference.APIVersion a) = group_of (OwnerReference.APIVersion b))
  && bool_decide (OwnerReference.Kind a = OwnerReference.Kind b)
  && bool_decide (OwnerReference.Name a = OwnerReference.Name b).

Fixpoint upsertOwnerRef (ref : OwnerReference.t) (owners : list OwnerReference.t)
  : list OwnerReference.t :=
  match owners with
  | [] => [ref]
  | r :: rs =>
      if referSameObject r ref then ref :: rs else r :: upsertOwnerRef ref rs
  end.

Definition controllerRef (owner : ObjectMeta.t) (gvk : GroupVersionKind.t) : OwnerReference.t :=
  OwnerReference.mk (GroupVersionKind.GroupVersionString gvk) (GroupVersionKind.Kind gvk)
    (ObjectMeta.Name owner) (ObjectMeta.UID owner) (Some true) (Some true).

Definition SetControllerReference {T} `{Object T}
    (owner : SimpleApp.t) (controlled : T) (scheme : Scheme) : error + T :=
  let meta := GetObjectMeta controlled in
  match validateOwner (SimpleApp.Meta owner) meta with
  | Some err => inl err
  | None =>
      match GVKForObject scheme with
      | inl err => inl err
      | inr gvk =>
          let ref := controllerRef (SimpleApp.Meta owner) gvk in
          match List.find isController (ObjectMeta.OwnerReferences meta) with
          | Some existing =>
              if referSameObject existing ref then
                inr (SetObjectMeta
                       (ObjectMeta.withOwnerReferences
                          (upsertOwnerRef ref (ObjectMeta.OwnerReferences meta)) meta)
                       controlled)
              else inl (ErrOther "object is already owned by another controller")
          | None =>
              inr (SetObjectMeta
                     (ObjectMeta.withOwnerReferences
                        (upsertOwnerRef ref (ObjectMeta.OwnerReferences meta)) meta)
                     controlled)
          end
      end
  end.

(** ** internal/controller: the reconciler *)

(** What a Go call does: it returns, or it panics (nil dereference, index
    out of range). *)
Inductive Outcome (A : Type) :=
| Returns (a : A)
| Panics.
Arguments Returns {A} a.
Arguments Panics {A}.

Record SimpleAppReconciler := mkReconciler { scheme : Scheme }.

Module Desired.

(** The [appsv1.Deployment] literal of ensureDeployment. *)
Definition deployment (cr : SimpleApp.t) : Deployment.t :=
  let name := ObjectMeta.Name (SimpleApp.Meta cr) in
  let desiredReplicas := SimpleAppSpec.Replicas (SimpleApp.Spec cr) in
  Deployment.mk
    (ObjectMeta.named name (ObjectMeta.Namespace (SimpleApp.Meta cr)))
    (DeploymentSpec.mk
       (Some desiredReplicas)
       (Some (LabelSelector.mk {[ "app" := name ]}))
       (PodTemplateSpec.mk
          (ObjectMeta.withLabels {[ "app" := name ]} (ObjectMeta.named "" ""))
          (PodSpec.mk
             [Container.mk "app"
                (SimpleAppSpec.Image (SimpleApp.Spec cr))
                PullIfNotPresent
                [ContainerPort.mk (SimpleAppSpec.ContainerPort (SimpleApp.Spec cr))]])))
    (DeploymentStatus.mk 0).

(** The [corev1.Service] literal of ensureService. *)
Definition service (cr : SimpleApp.t) : Service.t :=
  let name := ObjectMeta.Name (SimpleApp.Meta cr) in
  Service.mk
    (ObjectMeta.named name (ObjectMeta.Namespace (SimpleApp.Meta cr)))
    (ServiceSpec.mk
       {[ "app" := name ]}
       [ServicePort.mk
          (SimpleAppSpec.ServicePort (SimpleApp.Spec cr))
          (intstr.FromInt (SimpleAppSpec.ContainerPort (SimpleApp.Spec cr)))]
       ServiceTypeClusterIP).

(** The [networkingv1.Ingress] literal of ensureIngress. *)
Definition ingress (cr : SimpleApp.t) (ingressClassName : string) : Ingress.t :=
  let name := ObjectMeta.Name (SimpleApp.Meta cr) in
  let pathType := PathTypePrefix in
  Ingress.mk
    (ObjectMeta.withAnnotations
       {[ "kubernetes.io/ingress.class" := ingressClassName ]}
       (ObjectMeta.named (name +:+ "-ingress") (ObjectMeta.Namespace (SimpleApp.Meta cr))))
    (IngressSpec.mk
       (Some ingressClassName)
       [IngressRule.mk (name +:+ ".local")
          (Some (HTTPIngressRuleValue.mk
             [HTTPIngressPath.mk "/" (Some pathType)
                (IngressBackend.mk
                   (Some (IngressServiceBackend.mk name
                      (ServiceBackendPort.mk
                         (SimpleAppSpec.ServicePort (SimpleApp.Spec cr))))))]))]).

End Desired.

(** Field paths and in-place assignments used by the reconciler. *)
Definition deploymentReplicas (d : Deployment.t) : option Z :=
  DeploymentSpec.Replicas (Deployment.Spec d).

Definition deploymentContainers (d : Deployment.t) : list Container.t :=
  PodSpec.Containers (PodTemplateSpec.Spec (DeploymentSpec.Template (Deployment.Spec d))).

(** [d.Spec.Replicas = r] *)
Definition setReplicas (r : option Z) (d : Deployment.t) : Deployment.t :=
  Deployment.mk (Deployment.Meta d)
    (DeploymentSpec.mk r
       (DeploymentSpec.Selector (Deployment.Spec d))
       (DeploymentSpec.Template (Deployment.Spec d)))
    (Deployment.Status d).

(** [d.Spec.Template.Spec.Containers = cs] *)
Definition setContainers (cs : list Container.t) (d : Deployment.t) : Deployment.t :=
  Deployment.mk (Deployment.Meta d)
    (DeploymentSpec.mk
       (DeploymentSpec.Replicas (Deployment.Spec d))
       (DeploymentSpec.Selector (Deployment.Spec d))
       (PodTemplateSpec.mk
          (PodTemplateSpec.Meta (DeploymentSpec.Template (Deployment.Spec d)))
          (PodSpec.mk cs)))
    (Deployment.Status d).

(** [s.Spec.Ports = ps] *)
Definition setPorts (ps : list ServicePort.t) (s : Service.t) : Service.t :=
  Service.mk (Service.Meta s) (ServiceSpec.withPorts ps (Service.Spec s)).

(** [i.Spec.IngressClassName = c] *)
Definition setIngressClassName (c : option string) (i : Ingress.t) : Ingress.t :=
  Ingress.mk (Ingress.Meta i) (IngressSpec.mk c (IngressSpec.Rules (Ingress.Spec i))).

(** [a.Status.ReadyReplicas = n] *)
Definition setReadyReplicas (n : Z) (a : SimpleApp.t) : SimpleApp.t :=
  SimpleApp.mk (SimpleApp.Meta a) (SimpleApp.Spec a)
    (SimpleAppStatus.mk n (SimpleAppStatus.ServiceStatus (SimpleApp.Status a))).

(** ensureDeployment creates or updates the Deployment based on the CR specs. *)
Definition ensureDeployment (r : SimpleAppReconciler) (cr : SimpleApp.t) (w : World)
  : Outcome (option Deployment.t * option error) * World :=
  match SetControllerReference cr (Desired.deployment cr) (scheme r) with
  | inl err => (Returns (None, Some err), w)
  | inr dep =>
      let '(got, w) := Get (keyOf dep) w in
      match got with
      | inl err =>
          match IgnoreNotFound (Some err) with
          | Some _ => (Returns (None, Some err), w)
          | None =>
              let '(cerr, w) := Create dep w in
              match cerr with
              | Some err => (Returns (None, Some err), w)
              | None => (Returns (Some dep, None), w)
              end
          end
      | inr existing =>
          match deploymentReplicas existing, deploymentReplicas dep with
          | Some er, Some dr =>
              let needsUpdate := negb (bool_decide (er = dr)) in
              match deploymentContainers existing, deploymentContainers dep with
              | ec :: ecs, dc :: _ =>
                  let needsUpdate :=
                    if negb (bool_decide (Container.Image ec = Container.Image dc))
                    then true else needsUpdate in
                  if needsUpdate then
                    let existing := setReplicas (deploymentReplicas dep) existing in
                    let existing :=
                      setContainers (Container.withImage (Container.Image dc) ec :: ecs) existing in
                    let '(uerr, w) := Update existing w in
                    match uerr with
                    | Some err => (Returns (None, Some err), w)
                    | None => (Returns (Some existing, None), w)
                    end
                  else (Returns (Some existing, None), w)
              | _, _ => (Panics, w)
              end
          | _, _ => (Panics, w)
          end
      end
  end.

(** ensureService creates or updates the Service to expose the application. *)
Definition ensureService (r : SimpleAppReconciler) (cr : SimpleApp.t) (w : World)
  : Outcome (option Service.t * option error) * World :=
  match SetControllerReference cr (Desired.service cr) (scheme r) with
  | inl err => (Returns (None, Some err), w)
  | inr svc =>
      let '(got, w) := Get (keyOf svc) w in
      match got with
      | inl err =>
          match IgnoreNotFound (Some err) with
          | Some _ => (Returns (None, Some err), w)
          | None =>
              let '(cerr, w) := Create svc w in
              match cerr with
              | Some err => (Returns (None, Some err), w)
              | None => (Returns (Some svc, None), w)
              end
          end
      | inr existing =>
          match ServiceSpec.Ports (Service.Spec existing), ServiceSpec.Ports (Service.Spec svc) with
          | ep :: _, sp :: _ =>
              if negb (bool_decide (ServicePort.Port ep = ServicePort.Port sp))
                 || negb (bool_decide (ServicePort.TargetPort ep = ServicePort.TargetPort sp))
              then
                let existing := setPorts (ServiceSpec.Ports (Service.Spec svc)) existing in
                let '(uerr, w) := Update existing w in
                match uerr with
                | Some err => (Returns (None, Some err), w)
                | None => (Returns (Some existing, None), w)
                end
              else (Returns (Some existing, None), w)
          | _, _ => (Panics, w)
          end
      end
  end.

(** ensureIngress manages the Ingress creation based on the environment
    variable INGRESS_CLASS_NAME. *)
Definition ensureIngress (r : SimpleAppReconciler) (cr : SimpleApp.t) (w : World)
  : Outcome (option Ingress.t * option error) * World :=
  let ingressClassName := os_Getenv "INGRESS_CLASS_NAME" w in
  if bool_decide (ingressClassName = "") then (Returns (None, None), w)
  else
    match SetControllerReference cr (Desired.ingress cr ingressClassName) (scheme r) with
    | inl err => (Returns (None, Some err), w)
    | inr ingress =>
        let '(got, w) := Get (keyOf ingress) w in
        match got with
        | inl err =>
            match IgnoreNotFound (Some err) with
            | Some _ => (Returns (None, Some err), w)
            | None =>
                let '(cerr, w) := Create ingress w in
                match cerr with
                | Some err => (Returns (None, Some err), w)
                | None => (Returns (Some ingress, None), w)
                end
            end
        | inr existing =>
            match IngressSpec.IngressClassName (Ingress.Spec existing) with
            | Some c =>
                if negb (bool_decide (c = ingressClassName)) then
                  let existing := setIngressClassName (Some ingressClassName) existing in
                  let '(uerr, w) := Update existing w in
                  match uerr with
                  | Some err => (Returns (None, Some err), w)
                  | None => (Returns (Some existing, None), w)
                  end
                else (Returns (Some existing, None), w)
            | None => (Returns (Some existing, None), w)
            end
        end
    end.

(** Reconcile: fetch the SimpleApp, ensure the Deployment, the Service and
    the Ingress in that order, then mirror the ready replicas into the
    status. The [ctrl.Result] is always the empty one; the error is what
    is returned here. *)
Definition Reconcile (r : SimpleAppReconciler) (req : ObjectKey) (w : World)
  : Outcome (option error) * World :=
  let '(got, w) := Get (T := SimpleApp.t) req w in
  match got with
  | inl err => (Returns (IgnoreNotFound (Some err)), w)
  | inr simpleApp =>
      let '(o, w) := ensureDeployment r simpleApp w in
      match o with
      | Panics => (Panics, w)
      | Returns (_, Some err) => (Returns (Some err), w)
      | Returns (deployment, None) =>
          let '(o, w) := ensureService r simpleApp w in
          match o with
          | Panics => (Panics, w)
          | Returns (_, Some err) => (Returns (Some err), w)
          | Returns (_, None) =>
              let '(o, w) := ensureIngress r simpleApp w in
              match o with
              | Panics => (Panics, w)
              | Returns (_, Some err) => (Returns (Some err), w)
              | Returns (_, None) =>
                  match deployment with
                  | None => (Panics, w)
                  | Some deployment =>
                      let ready := DeploymentStatus.ReadyReplicas (Deployment.Status deployment) in
                      if negb (bool_decide
                           (SimpleAppStatus.ReadyReplicas (SimpleApp.Status simpleApp) = ready))
                      then
                        let simpleApp := setReadyReplicas ready simpleApp in
                        let '(serr, w) := StatusUpdate simpleApp w in
                        match serr with
                        | Some err => (Returns (Some err), w)
                        | None => (Returns None, w)
                        end
                      else (Returns None, w)
                  end
              end
          end
      end
  end.

(** ** The copy of the controller without routes *)

(** internal/controller/simpleapp_controller.go holds the controller as it
    was before routes were added. Its Reconcile has no ensureIngress step
    and its ensureDeployment is the one above; its ensureService differs:
    an existing Service is returned as read, whatever its ports. *)
Module Legacy.

Definition ensureService (r : SimpleAppReconciler) (cr : SimpleApp.t) (w : World)
  : Outcome (option Service.t * option error) * World :=
  match SetControllerReference cr (Desired.service cr) (scheme r) with
  | inl err => (Returns (None, Some err), w)
  | inr svc =>
      let '(got, w) := Get (keyOf svc) w in
      match got with
      | inl err =>
          match IgnoreNotFound (Some err) with
          | Some _ => (Returns (None, Some err), w)
          | None =>
              let '(cerr, w) := Create svc w in
              match cerr with
              | Some err => (Returns (None, Some err), w)
              | None => (Returns (Some svc, None), w)
              end
          end
      | inr existing => (Returns (Some existing, None), w)
      end
  end.

(** Reconcile of the same file: fetch, ensureDeployment, ensureService,
    status; there is no route step. *)
Definition Reconcile (r : SimpleAppReconciler) (req : ObjectKey) (w : World)
  : Outcome (option error) * World :=
  let '(got, w) := Get (T := SimpleApp.t) req w in
  match got with
  | inl err => (Returns (IgnoreNotFound (Some err)), w)
  | inr simpleApp =>
      let '(o, w) := ensureDeployment r simpleApp w in
      match o with
      | Panics => (Panics, w)
      | Returns (_, Some err) => (Returns (Some err), w)
      | Returns (deployment, None) =>
          let '(o, w) := ensureService r simpleApp w in
          match o with
          | Panics => (Panics, w)
          | Returns (_, Some err) => (Returns (Some err), w)
          | Returns (_, None) =>
              match deployment with
              | None => (Panics, w)
              | Some deployment =>
                  let ready := DeploymentStatus.ReadyReplicas (Deployment.Status deployment) in
                  if negb (bool_decide
                       (SimpleAppStatus.ReadyReplicas (SimpleApp.Status simpleApp) = ready))
                  then
                    let simpleApp := setReadyReplicas ready simpleApp in
                    let '(serr, w) := StatusUpdate simpleApp w in
                    match serr with
                    | Some err => (Returns (Some err), w)
                    | None => (Returns None, w)
                    end
                  else (Returns None, w)
              end
          end
      end
  end.

End Legacy.

(** ** Worked example *)

Module Example.

Definition theScheme : Scheme :=
  mkScheme [GroupVersionKind.mk "apps.myapp.io" "v1" "SimpleApp"].

Definition r : SimpleAppReconciler := mkReconciler theScheme.

Definition app (name : string) : SimpleApp.t :=
  SimpleApp.mk
    (ObjectMeta.mk name "default" "uid-1" ∅ ∅ [])
    (SimpleAppSpec.mk "nginx:latest" 2 80 8080)
    (SimpleAppStatus.mk 0 "").

Definition world0 (name : string) (env : gmap string string) : World :=
  mkWorld (mkCluster {[ ("default", name) := app name ]} ∅ ∅ ∅) env [] [].

(** No object at all, nothing scheduled, nothing logged. *)
Definition emptyWorld : World :=
  mkWorld (mkCluster ∅ ∅ ∅ ∅) ∅ [] [].

Definition gvk : GroupVersionKind.t :=
  GroupVersionKind.mk "apps.myapp.io" "v1" "SimpleApp".

Definition key : ObjectKey := ("default", "a").

(** The workload of "a" after somebody scaled it to 5 and edited its app
    label; two of its pods are ready. *)
Definition driftedDeployment : Deployment.t :=
  Deployment.mk
    (ObjectMeta.mk "a" "default" "uid-d" {[ "app" := "edited" ]} ∅ [])
    (DeploymentSpec.mk (Some 5)
       (Some (LabelSelector.mk {[ "app" := "a" ]}))
       (PodTemplateSpec.mk
          (ObjectMeta.withLabels {[ "app" := "a" ]} (ObjectMeta.named "" ""))
          (PodSpec.mk
             [Container.mk "app" "nginx:latest" PullIfNotPresent [ContainerPort.mk 80]])))
    (DeploymentStatus.mk 2).

(** The endpoint of "a" after somebody moved its port to 9090. *)
Definition driftedService : Service.t :=
  Service.mk
    (ObjectMeta.mk "a" "default" "uid-s" ∅ ∅ [])
    (ServiceSpec.mk {[ "app" := "a" ]}
       [ServicePort.mk 9090 (intstr.FromInt 80)] ServiceTypeClusterIP).

Definition driftedWorld : World :=
  mkWorld
    (mkCluster {[ key := app "a" ]} {[ key := driftedDeployment ]}
       {[ key := driftedService ]} ∅)
    ∅ [] [].

Definition routeKey : ObjectKey := ("default", "a-ingress").

Definition routeRules : list IngressRule.t :=
  [IngressRule.mk "a.local"
     (Some (HTTPIngressRuleValue.mk
        [HTTPIngressPath.mk "/" (Some PathTypePrefix)
           (IngressBackend.mk
              (Some (IngressServiceBackend.mk "a" (ServiceBackendPort.mk 8080))))]))].

(** A route as ensureIngress created it when the class was "traefik". *)
Definition traefikRoute : Ingress.t :=
  Ingress.mk
    (ObjectMeta.mk "a-ingress" "default" "uid-i" ∅
       {[ "kubernetes.io/ingress.class" := "traefik" ]} [])
    (IngressSpec.mk (Some "traefik") routeRules).

(** A route that names its class in the legacy annotation only. *)
Definition unclassedRoute : Ingress.t :=
  Ingress.mk
    (ObjectMeta.mk "a-ingress" "default" "uid-i" ∅
       {[ "kubernetes.io/ingress.class" := "traefik" ]} [])
    (IngressSpec.mk None routeRules).

Definition nginxEnv : gmap string string := {[ "INGRESS_CLASS_NAME" := "nginx" ]}.

(** The operator now runs with INGRESS_CLASS_NAME=nginx. *)
Definition routedWorld (route : Ingress.t) : World :=
  mkWorld (mkCluster {[ key := app "a" ]} ∅ ∅ {[ routeKey := route ]}) nginxEnv [] [].

End Example.

(** ** Vocabulary of the statements *)

(** Calls that write to the API server. *)
Definition mutating (c : ApiCall) : bool :=
  match c with
  | CallGet _ _ => false
  | _ => true
  end.

Definition kindOfAny (o : AnyObject) : ObjectKind :=
  match o with
  | ASimpleApp _ => KSimpleApp
  | ADeployment _ => KDeployment
  | AService _ => KService
  | AIngress _ => KIngress
  end.

Definition metaOfAny (o : AnyObject) : ObjectMeta.t :=
  match o with
  | ASimpleApp a => SimpleApp.Meta a
  | ADeployment d => Deployment.Meta d
  | AService s => Service.Meta s
  | AIngress i => Ingress.Meta i
  end.

(** The kind of object a call reads or writes. *)
Definition callKind (c : ApiCall) : ObjectKind :=
  match c with
  | CallGet k _ => k
  | CallCreate o | CallUpdate o | CallStatusUpdate o => kindOfAny o
  end.

Definition isStatusWrite (c : ApiCall) : bool :=
  match c with
  | CallStatusUpdate _ => true
  | _ => false
  end.

(** The INGRESS_CLASS_NAME the next [os.Getenv] sees. *)
Definition routeClass (w : World) : string := os_Getenv "INGRESS_CLASS_NAME" w.

(** The key under which the dependents of a declaration live. *)
Definition appKey (cr : SimpleApp.t) : ObjectKey := ObjectMeta.key (SimpleApp.Meta cr).

Definition ingressKey (cr : SimpleApp.t) : ObjectKey :=
  (ObjectMeta.Namespace (SimpleApp.Meta cr), ObjectMeta.Name (SimpleApp.Meta cr) +:+ "-ingress").

(** [meta] carries a controller back-reference to the declaration [cr]. *)
Definition ownedBy (cr : SimpleApp.t) (meta : ObjectMeta.t) : Prop :=
  ∃ ref, ref ∈ ObjectMeta.OwnerReferences meta
         ∧ OwnerReference.Name ref = ObjectMeta.Name (SimpleApp.Meta cr)
         ∧ OwnerReference.UID ref = ObjectMeta.UID (SimpleApp.Meta cr)
         ∧ OwnerReference.Controller ref = Some true.

(** The legacy class annotation of a route. *)
Definition legacyClass (i : Ingress.t) : option string :=
  ObjectMeta.Annotations (Ingress.Meta i) !! "kubernetes.io/ingress.class".

(** A desired object stamped with the controller reference. *)
Definition stamped {T} `{Object T} (cr : SimpleApp.t) (gvk : GroupVersionKind.t) (obj : T) : T :=
  SetObjectMeta
    (ObjectMeta.withOwnerReferences
       [controllerRef (SimpleApp.Meta cr) gvk] (GetObjectMeta obj))
    obj.

(** ** Definitions used by the statements and their proofs *)

(** A call an ensure operation for kind [k] may make on behalf of [cr]: it
    concerns kind [k], it is not a status write, and a create carries the
    back-reference to [cr]. *)
Definition dependentCall (cr : SimpleApp.t) (k : ObjectKind) (c : ApiCall) : Prop :=
  callKind c = k
  ∧ isStatusWrite c = false
  ∧ ∀ o, c = CallCreate o -> ownedBy cr (metaOfAny o).

(** The declaration as stored after a status write of [obj]. *)
Definition withStatusOf (obj old : SimpleApp.t) : SimpleApp.t :=
  SimpleApp.mk (SimpleApp.Meta old) (SimpleApp.Spec old) (SimpleApp.Status obj).

(** The status step of a pass for [app]: nothing, or one status write of
    [app] with a new ready count, which replaces the stored status when
    the server accepts it. *)
Definition statusShape (app : SimpleApp.t) (w w' : World) (st : list ApiCall) : Prop :=
  (st = [] ∧ simpleapps (cluster w') = simpleapps (cluster w))
  ∨ ∃ n, st = [CallStatusUpdate (ASimpleApp (setReadyReplicas n app))]
         ∧ (simpleapps (cluster w') = simpleapps (cluster w)
            ∨ ∃ old, simpleapps (cluster w) !! keyOf app = Some old
                     ∧ simpleapps (cluster w')
                       = <[keyOf app := withStatusOf (setReadyReplicas n app) old]>
                           (simpleapps (cluster w))).

(** The calls of a pass after the fetch of [app]: those of the three
    ensure operations in their order, then the status step. *)
Definition passShape (app : SimpleApp.t) (w w' : World) (cs : list ApiCall) : Prop :=
  ∃ cs1 cs2 cs3 st,
    cs = cs1 ++ cs2 ++ cs3 ++ st
    ∧ Forall (dependentCall app KDeployment) cs1
    ∧ Forall (dependentCall app KService) cs2
    ∧ Forall (dependentCall app KIngress) cs3
    ∧ (routeClass w = "" -> cs3 = [] ∧ ingresses (cluster w') = ingresses (cluster w))
    ∧ statusShape app w w' st.

(** The scheme resolves the SimpleApp type to [gvk]. *)
Definition registered (r : SimpleAppReconciler) (gvk : GroupVersionKind.t) : Prop :=
  ObjectKinds (scheme r) = [gvk].

(** The world after the calls [cs] left the objects [cl]. *)
Definition after (cs : list ApiCall) (cl : Cluster) (w : World) : World :=
  mkWorld cl (environ w) (faults w) (calls w ++ cs).

Definition withDeployment (key : ObjectKey) (d : Deployment.t) (cl : Cluster) : Cluster :=
  set_objects (<[key := d]> (deployments cl)) cl.

Definition withService (key : ObjectKey) (s : Service.t) (cl : Cluster) : Cluster :=
  set_objects (<[key := s]> (services cl)) cl.

Definition withIngress (key : ObjectKey) (i : Ingress.t) (cl : Cluster) : Cluster :=
  set_objects (<[key := i]> (ingresses cl)) cl.

(** The fields ensureDeployment assigns before its update. *)
Definition patchDeployment (cr : SimpleApp.t) (ec : Container.t) (ecs : list Container.t)
    (existing : Deployment.t) : Deployment.t :=
  setContainers
    (Container.withImage (SimpleAppSpec.Image (SimpleApp.Spec cr)) ec :: ecs)
    (setReplicas (Some (SimpleAppSpec.Replicas (SimpleApp.Spec cr))) existing).

(** The port list ensureService assigns before its update. *)
Definition patchService (cr : SimpleApp.t) (existing : Service.t) : Service.t :=
  setPorts
    [ServicePort.mk (SimpleAppSpec.ServicePort (SimpleApp.Spec cr))
       (intstr.FromInt (SimpleAppSpec.ContainerPort (SimpleApp.Spec cr)))]
    existing.

(** The route-class rule of ensureIngress as claim C6 words it: a live
    route whose class differs from the resolved one is patched. *)
Definition patchesWheneverClassDiffers
    (r : SimpleAppReconciler) (cr : SimpleApp.t) (w : World) (existing : Ingress.t) : Prop :=
  IngressSpec.IngressClassName (Ingress.Spec existing) ≠ Some (routeClass w) ->
  CallUpdate (AIngress (setIngressClassName (Some (routeClass w)) existing))
    ∈ calls (snd (ensureIngress r cr w)).

Inductive EnsureOp := OpDeployment | OpService | OpIngress.

Definition errorOf {A} (o : Outcome (option A * option error)) : Outcome (option error) :=
  match o with
  | Returns (_, err) => Returns err
  | Panics => Panics
  end.

(** One of the three ensure operations, with the error it returns. *)
Definition runEnsure (op : EnsureOp) (r : SimpleAppReconciler) (cr : SimpleApp.t) (w : World)
  : Outcome (option error) * World :=
  match op with
  | OpDeployment => (errorOf (fst (ensureDeployment r cr w)), snd (ensureDeployment r cr w))
  | OpService => (errorOf (fst (ensureService r cr w)), snd (ensureService r cr w))
  | OpIngress => (errorOf (fst (ensureIngress r cr w)), snd (ensureIngress r cr w))
  end.

(** The API server keeps every dependent object under the namespace and
    name written in its metadata. *)
Definition storedUnderOwnKeys (cl : Cluster) : Prop :=
  (∀ k d, deployments cl !! k = Some d -> keyOf d = k)
  ∧ (∀ k s, services cl !! k = Some s -> keyOf s = k)
  ∧ (∀ k i, ingresses cl !! k = Some i -> keyOf i = k).

(** Later runs of ensureIngress for the same declaration, each under its
    own environment and with its own scheduled outcomes. *)
Fixpoint laterPasses (r : SimpleAppReconciler) (cr : SimpleApp.t)
    (passes : list (gmap string string * list (option error))) (w : World) : World :=
  match passes with
  | [] => w
  | (env, fs) :: rest =>
      laterPasses r cr rest (snd (ensureIngress r cr (mkWorld (cluster w) env fs (calls w))))
  end.

Definition routesUnderOwnKeys (cl : Cluster) : Prop :=
  ∀ k i, ingresses cl !! k = Some i -> keyOf i = k.

(** ** Definitions for the further properties *)

(** The kind an ensure operation works on, and the key it reads. *)
Definition opKind (op : EnsureOp) : ObjectKind :=
  match op with
  | OpDeployment => KDeployment
  | OpService => KService
  | OpIngress => KIngress
  end.

Definition opKey (op : EnsureOp) (cr : SimpleApp.t) : ObjectKey :=
  match op with
  | OpIngress => ingressKey cr
  | _ => appKey cr
  end.

(** The call lists an ensure operation can leave: nothing, the read
    alone, or the read followed by one create or one update. *)
Definition readThenOneWrite (k : ObjectKind) (key : ObjectKey) (cs : list ApiCall) : Prop :=
  cs = []
  ∨ cs = [CallGet k key]
  ∨ (∃ o, cs = [CallGet k key; CallCreate o] ∧ kindOfAny o = k)
  ∨ (∃ o, cs = [CallGet k key; CallUpdate o] ∧ kindOfAny o = k).

(** Every key that holds an object in [c] still holds one in [c']. *)
Definition keepsKeys (c c' : Cluster) : Prop :=
  (∀ k, is_Some (simpleapps c !! k) -> is_Some (simpleapps c' !! k))
  ∧ (∀ k, is_Some (deployments c !! k) -> is_Some (deployments c' !! k))
  ∧ (∀ k, is_Some (services c !! k) -> is_Some (services c' !! k))
  ∧ (∀ k, is_Some (ingresses c !! k) -> is_Some (ingresses c' !! k)).

(** [c'] differs from [c] at most in the objects of [app]: the
    declaration, workload and endpoint under its key and the route under
    its route key. *)
Definition differsOnlyFor (app : SimpleApp.t) (c c' : Cluster) : Prop :=
  (∀ k, k ≠ appKey app -> simpleapps c' !! k = simpleapps c !! k)
  ∧ (∀ k, k ≠ appKey app -> deployments c' !! k = deployments c !! k)
  ∧ (∀ k, k ≠ appKey app -> services c' !! k = services c !! k)
  ∧ (∀ k, k ≠ ingressKey app -> ingresses c' !! k = ingresses c !! k).

(** The dependents of [cr] as a successful pass leaves them. *)
Definition workloadConverged (cr : SimpleApp.t) (d : Deployment.t) : Prop :=
  deploymentReplicas d = Some (SimpleAppSpec.Replicas (SimpleApp.Spec cr))
  ∧ ∃ ec ecs, deploymentContainers d = ec :: ecs
              ∧ Container.Image ec = SimpleAppSpec.Image (SimpleApp.Spec cr).

Definition endpointConverged (cr : SimpleApp.t) (s : Service.t) : Prop :=
  ∃ ep eps, ServiceSpec.Ports (Service.Spec s) = ep :: eps
            ∧ ServicePort.Port ep = SimpleAppSpec.ServicePort (SimpleApp.Spec cr)
            ∧ ServicePort.TargetPort ep
              = intstr.FromInt (SimpleAppSpec.ContainerPort (SimpleApp.Spec cr)).

(** What a step of a pass for [app] guarantees of a store that keeps its
    dependents under their own keys: the store after it does so too, and
    differs at most in the objects of [app]. *)
Definition staysLocal (app : SimpleApp.t) (c c' : Cluster) : Prop :=
  storedUnderOwnKeys c -> storedUnderOwnKeys c' ∧ differsOnlyFor app c c'.

(** ** Scenarios for the further properties *)

Module Scenario.

(** The drifted cluster of the worked example, with the next API call
    failing on a conflict. *)
Definition failingRead : World :=
  mkWorld (cluster Example.driftedWorld) ∅ [Some ErrConflict] [].

(** The fresh declaration "a"; the fifth API call fails. *)
Definition failingEndpointCreate : World :=
  mkWorld (cluster (Example.world0 "a" ∅)) ∅
    [None; None; None; None; Some ErrConflict] [].

(** A reconciler whose scheme does not know the SimpleApp type. *)
Definition unregistered : SimpleAppReconciler := mkReconciler (mkScheme []).

(** The declaration "a" alone, the operator running with
    INGRESS_CLASS_NAME=nginx. *)
Definition routelessWorld : World :=
  mkWorld (cluster (Example.world0 "a" ∅)) Example.nginxEnv [] [].

(** A headless endpoint without ports under the name of "a". *)
Definition portlessService : Service.t :=
  Service.mk
    (ObjectMeta.mk "a" "default" "uid-s" ∅ ∅ [])
    (ServiceSpec.mk {[ "app" := "a" ]} [] ServiceTypeClusterIP).

Definition portlessWorld : World :=
  mkWorld
    (mkCluster {[ Example.key := Example.app "a" ]} ∅
       {[ Example.key := portlessService ]} ∅)
    ∅ [] [].

End Scenario.

(** ** dashboard/main.go: the submission front-end *)

(** The handlers of the dashboard over an explicit host: what
    [template.ParseFiles], [os.WriteFile] and [exec.Command(..).CombinedOutput]
    answer is given by [Host]; what a handler does to the host is the list
    of [Action]s it returns, in order, next to its HTTP response.
    [strings.TrimSpace] and [filepath.Join] are parameters of the handlers;
    logging is left out. *)
Module Dashboard.

Record PageData := mkPage { Message : string; Output : string; Error : bool }.

(** The request, as far as the handlers read it: [r.Method],
    [r.FormValue] and [r.URL.Query().Get], both empty for a missing key. *)
Record Request := mkRequest {
  Method : string;
  Form : gmap string string;
  Query : gmap string string }.

Definition FormValue (r : Request) (key : string) : string := default "" (Form r !! key).

Definition QueryGet (r : Request) (key : string) : string := default "" (Query r !! key).

Record Host := mkHost {
  ParseFiles_ok : bool;
  WriteFile : string -> string -> option string;
  CombinedOutput : list string -> string * bool }.

Inductive Action :=
| ActWriteFile (path content : string)
| ActExec (argv : list string)
| ActRemove (path : string).

Inductive Response :=
| RespError (msg : string) (code : Z)
| RespPage (data : option PageData)
| RespWrite (contentType : option string) (status : option Z) (body : string).

(** [strings.Contains] *)
Fixpoint Contains (s substr : string) : bool :=
  String.prefix substr s
  || match s with
     | EmptyString => false
     | String _ s' => Contains s' substr
     end.

Definition nl : string := String (Ascii.ascii_of_nat 10) EmptyString.

Definition dquote : string := String (Ascii.ascii_of_nat 34) EmptyString.

(** The body handleList writes when kubectl fails: an object with an
    empty "items" array. *)
Definition emptyList : string := "{" +:+ dquote +:+ "items" +:+ dquote +:+ ": []}".

(** The [fmt.Sprintf] of handleHome. *)
Definition yamlContent (name namespace image replicas containerPort servicePort : string)
  : string :=
  "apiVersion: apps.myapp.io/v1" +:+ nl +:+
  "kind: SimpleApp" +:+ nl +:+
  "metadata:" +:+ nl +:+
  "  name: " +:+ name +:+ nl +:+
  "  namespace: " +:+ namespace +:+ nl +:+
  "spec:" +:+ nl +:+
  "  image: " +:+ image +:+ nl +:+
  "  replicas: " +:+ replicas +:+ nl +:+
  "  containerPort: " +:+ containerPort +:+ nl +:+
  "  servicePort: " +:+ servicePort.

Section Handlers.
Variable TrimSpace : string -> string.
Variable Join : string -> string -> string.
Variable host : Host.

(** handleHome serves the index.html page and processes the deployment form. *)
Definition handleHome (r : Request) : Response * list Action :=
  if negb (ParseFiles_ok host) then
    (RespError "Critical Error: Could not load index.html" 500, [])
  else if negb (bool_decide (Method r = "POST")) then (RespPage None, [])
  else
    let name := TrimSpace (FormValue r "name") in
    let image := TrimSpace (FormValue r "image") in
    let replicas := TrimSpace (FormValue r "replicas") in
    let containerPort := TrimSpace (FormValue r "containerPort") in
    let servicePort := TrimSpace (FormValue r "servicePort") in
    let namespace := TrimSpace (FormValue r "namespace") in
    let namespace := if bool_decide (namespace = "") then "default" else namespace in
    if bool_decide (name = "") || bool_decide (image = "") || bool_decide (replicas = "")
       || bool_decide (containerPort = "") || bool_decide (servicePort = "")
    then
      (RespPage (Some (mkPage "Validation Error: All fields are required"
                         "Missing required fields" true)), [])
    else
      let content :=
        yamlContent name namespace image replicas containerPort servicePort in
      let absPath := Join "/tmp" (name +:+ ".yaml") in
      match WriteFile host absPath content with
      | Some err =>
          (RespPage (Some (mkPage "Internal Error: Could not write YAML file" err true)),
           [ActWriteFile absPath content])
      | None =>
          let '(outputStr, failed) :=
            CombinedOutput host ["kubectl"; "apply"; "-f"; absPath] in
          let data :=
            if Contains outputStr "created" || Contains outputStr "configured"
               || Contains outputStr "unchanged"
            then mkPage "Application Deployed Successfully!" outputStr false
            else if failed then mkPage "Deployment Failed" outputStr true
            else mkPage "Application Deployed Successfully!" outputStr false in
          (RespPage (Some data),
           [ActWriteFile absPath content;
            ActExec ["kubectl"; "apply"; "-f"; absPath];
            ActRemove absPath])
      end.

(** handleList calls 'kubectl get simpleapps' and returns the JSON output. *)
Definition handleList (r : Request) : Response * list Action :=
  let argv := ["kubectl"; "get"; "simpleapps"; "-A"; "-o"; "json"] in
  let '(output, failed) := CombinedOutput host argv in
  if failed then
    (RespWrite (Some "application/json") None emptyList, [ActExec argv])
  else (RespWrite (Some "application/json") None output, [ActExec argv]).

(** handleDelete calls 'kubectl delete simpleapp' for a specific resource. *)
Definition handleDelete (r : Request) : Response * list Action :=
  if negb (bool_decide (Method r = "DELETE")) then
    (RespError "Method Not Allowed" 405, [])
  else
    let name := QueryGet r "name" in
    let namespace := QueryGet r "namespace" in
    if bool_decide (name = "") || bool_decide (namespace = "") then
      (RespError "Missing 'name' or 'namespace' parameter" 400, [])
    else
      let argv := ["kubectl"; "delete"; "simpleapp"; name; "-n"; namespace] in
      let '(output, failed) := CombinedOutput host argv in
      if failed then
        (RespError ("Failed to delete resource: " +:+ output) 500, [ActExec argv])
      else (RespWrite None (Some 200) "Resource deleted successfully", [ActExec argv]).

End Handlers.

(** The five fields the form requires. *)
Definition requiredFields : list string :=
  ["name"; "image"; "replicas"; "containerPort"; "servicePort"].

(** A host for examples: the template loads, files can be written, and
    kubectl fails while printing that the object is unchanged. *)
Definition sampleHost : Host :=
  mkHost true (λ _ _, None) (λ _, ("simpleapp.apps.myapp.io/a unchanged", true)).

Definition sampleJoin (dir file : string) : string := dir +:+ "/" +:+ file.

Definition sampleForm : Request :=
  mkRequest "POST"
    (list_to_map [("name", "a"); ("image", "nginx:latest"); ("replicas", "2");
                  ("containerPort", "80"); ("servicePort", "8080")])
    ∅.

End Dashboard.

(** ** Basic facts *)

Lemma validateOwner_same_namespace (owner object : ObjectMeta.t) :
  ObjectMeta.Namespace object = ObjectMeta.Namespace owner ->
  validateOwner owner object = None.
Proof.
  intros Hns. unfold validateOwner. rewrite Hns.
  repeat case_bool_decide; congruence.
Qed.

Lemma SetControllerReference_fresh {T} `{Object T} (cr : SimpleApp.t) (obj : T) (s : Scheme) :
  ObjectMeta.Namespace (GetObjectMeta obj) = ObjectMeta.Namespace (SimpleApp.Meta cr) ->
  ObjectMeta.OwnerReferences (GetObjectMeta obj) = [] ->
  SetControllerReference cr obj s =
    match GVKForObject s with
    | inl err => inl err
    | inr gvk => inr (stamped cr gvk obj)
    end.
Proof.
  intros Hns Hown. unfold SetControllerReference, stamped.
  rewrite validateOwner_same_namespace by done.
  destruct (GVKForObject s); [done|]. by rewrite Hown.
Qed.

Lemma GVKForObject_registered (s : Scheme) (gvk : GroupVersionKind.t) :
  ObjectKinds s = [gvk] -> GVKForObject s = inr gvk.
Proof. intros Hk. unfold GVKForObject. by rewrite Hk. Qed.

Lemma stamped_ownedBy_deployment cr gvk :
  ownedBy cr (Deployment.Meta (stamped cr gvk (Desired.deployment cr))).
Proof. eexists. split; [by apply list_elem_of_here|done]. Qed.

Lemma stamped_ownedBy_service cr gvk :
  ownedBy cr (Service.Meta (stamped cr gvk (Desired.service cr))).
Proof. eexists. split; [by apply list_elem_of_here|done]. Qed.

Lemma stamped_ownedBy_ingress cr gvk c :
  ownedBy cr (Ingress.Meta (stamped cr gvk (Desired.ingress cr c))).
Proof. eexists. split; [by apply list_elem_of_here|done]. Qed.

(** ** What each ensure operation may do, whatever the API server answers *)

Lemma dependentCall_Get cr k key : dependentCall cr k (CallGet k key).
Proof. by repeat split. Qed.

Lemma dependentCall_Update cr o : dependentCall cr (kindOfAny o) (CallUpdate o).
Proof. by repeat split. Qed.

Lemma dependentCall_Create cr o :
  ownedBy cr (metaOfAny o) -> dependentCall cr (kindOfAny o) (CallCreate o).
Proof. intros Ho. repeat split; try done. by intros ? [= <-]. Qed.

Ltac dependent_call :=
  first
    [ apply dependentCall_Get
    | apply (dependentCall_Update _ (ADeployment _))
    | apply (dependentCall_Update _ (AService _))
    | apply (dependentCall_Update _ (AIngress _))
    | apply (dependentCall_Create _ (ADeployment _)), stamped_ownedBy_deployment
    | apply (dependentCall_Create _ (AService _)), stamped_ownedBy_service
    | apply (dependentCall_Create _ (AIngress _)), stamped_ownedBy_ingress ].

(** Symbolic execution of the client calls of one operation. *)
Ltac client_step :=
  match goal with
  | |- context [match ?x with _ => _ end] =>
      match type of x with
      | list (option error) => destruct x as [|[?|] ?]
      | option error => destruct x as [[]|] eqn:?
      | option _ => destruct x eqn:?
      | list _ => destruct x eqn:?
      | sum _ _ => destruct x eqn:?
      | error => destruct x
      | bool => destruct x eqn:?
      end; cbn
  end.

Ltac run_client :=
  unfold Get, Create, Update, StatusUpdate, pop_fault, log, set_cluster; cbn;
  repeat client_step.

Ltac close_summary :=
  eexists; cbn; rewrite <- ?app_assoc; cbn;
  repeat split; try reflexivity;
  repeat first [apply Forall_nil_2 | apply Forall_cons_2]; try dependent_call.

Lemma ensureDeployment_summary r cr w :
  ∃ cs, calls (snd (ensureDeployment r cr w)) = calls w ++ cs
        ∧ environ (snd (ensureDeployment r cr w)) = environ w
        ∧ simpleapps (cluster (snd (ensureDeployment r cr w))) = simpleapps (cluster w)
        ∧ services (cluster (snd (ensureDeployment r cr w))) = services (cluster w)
        ∧ ingresses (cluster (snd (ensureDeployment r cr w))) = ingresses (cluster w)
        ∧ Forall (dependentCall cr KDeployment) cs.
Proof.
  unfold ensureDeployment. rewrite SetControllerReference_fresh by done.
  destruct (GVKForObject (scheme r)) as [e|gvk].
  { exists []. cbn. by rewrite app_nil_r. }
  destruct w as [cl env fs cs0]. run_client; close_summary.
Qed.

Lemma ensureService_summary r cr w :
  ∃ cs, calls (snd (ensureService r cr w)) = calls w ++ cs
        ∧ environ (snd (ensureService r cr w)) = environ w
        ∧ simpleapps (cluster (snd (ensureService r cr w))) = simpleapps (cluster w)
        ∧ deployments (cluster (snd (ensureService r cr w))) = deployments (cluster w)
        ∧ ingresses (cluster (snd (ensureService r cr w))) = ingresses (cluster w)
        ∧ Forall (dependentCall cr KService) cs.
Proof.
  unfold ensureService. rewrite SetControllerReference_fresh by done.
  destruct (GVKForObject (scheme r)) as [e|gvk].
  { exists []. cbn. by rewrite app_nil_r. }
  destruct w as [cl env fs cs0]. run_client; close_summary.
Qed.

Lemma ensureIngress_summary r cr w :
  ∃ cs, calls (snd (ensureIngress r cr w)) = calls w ++ cs
        ∧ environ (snd (ensureIngress r cr w)) = environ w
        ∧ simpleapps (cluster (snd (ensureIngress r cr w))) = simpleapps (cluster w)
        ∧ deployments (cluster (snd (ensureIngress r cr w))) = deployments (cluster w)
        ∧ services (cluster (snd (ensureIngress r cr w))) = services (cluster w)
        ∧ Forall (dependentCall cr KIngress) cs.
Proof.
  unfold ensureIngress. case_bool_decide.
  { exists []. cbn. by rewrite app_nil_r. }
  rewrite SetControllerReference_fresh by done.
  destruct (GVKForObject (scheme r)) as [e|gvk].
  { exists []. cbn. by rewrite app_nil_r. }
  destruct w as [cl env fs cs0]. run_client; close_summary.
Qed.

Lemma Get_simpleapp_summary req w :
  calls (snd (Get (T := SimpleApp.t) req w)) = calls w ++ [CallGet KSimpleApp req]
  ∧ environ (snd (Get (T := SimpleApp.t) req w)) = environ w
  ∧ cluster (snd (Get (T := SimpleApp.t) req w)) = cluster w
  ∧ ∀ app, fst (Get (T := SimpleApp.t) req w) = inr app ->
           simpleapps (cluster w) !! req = Some app.
Proof.
  destruct w as [cl env fs cs0]. run_client; repeat split; try done.
  all: intros app [= <-]; done.
Qed.

Lemma StatusUpdate_summary obj w :
  calls (snd (StatusUpdate obj w)) = calls w ++ [CallStatusUpdate (ASimpleApp obj)]
  ∧ environ (snd (StatusUpdate obj w)) = environ w
  ∧ deployments (cluster (snd (StatusUpdate obj w))) = deployments (cluster w)
  ∧ services (cluster (snd (StatusUpdate obj w))) = services (cluster w)
  ∧ ingresses (cluster (snd (StatusUpdate obj w))) = ingresses (cluster w)
  ∧ (simpleapps (cluster (snd (StatusUpdate obj w))) = simpleapps (cluster w)
     ∨ ∃ old, simpleapps (cluster w) !! keyOf obj = Some old
              ∧ fst (StatusUpdate obj w) = None
              ∧ simpleapps (cluster (snd (StatusUpdate obj w)))
                = <[keyOf obj := withStatusOf obj old]> (simpleapps (cluster w))).
Proof.
  destruct w as [cl env fs cs0]. run_client; repeat split; eauto.
Qed.

Lemma ensureIngress_skip r cr w :
  routeClass w = "" -> ensureIngress r cr w = (Returns (None, None), w).
Proof.
  unfold ensureIngress, routeClass. intros ->. by rewrite bool_decide_eq_true_2.
Qed.

Lemma routeClass_environ w w' : environ w' = environ w -> routeClass w' = routeClass w.
Proof. unfold routeClass, os_Getenv. by intros ->. Qed.

(** ** The anatomy of a reconciliation pass *)

Lemma Reconcile_anatomy r req w :
  ∃ cs, calls (snd (Reconcile r req w)) = calls w ++ CallGet KSimpleApp req :: cs
        ∧ environ (snd (Reconcile r req w)) = environ w
        ∧ ((cs = [] ∧ cluster (snd (Reconcile r req w)) = cluster w)
           ∨ ∃ app, simpleapps (cluster w) !! req = Some app
                    ∧ passShape app w (snd (Reconcile r req w)) cs).
Proof.
  unfold Reconcile.
  pose proof (Get_simpleapp_summary req w) as (HGc & HGe & HGcl & HGapp).
  destruct (Get req w) as [[e|app] w0]; simpl in *.
  { exists []. split; [done|]. split; [done|]. left. by split. }
  specialize (HGapp app eq_refl).
  pose proof (ensureDeployment_summary r app w0) as (cs1 & Hc1 & He1 & Ha1 & Hs1 & Hi1 & HF1).
  destruct (ensureDeployment r app w0) as [o1 w1]; simpl in *.
  assert (Hstop1 : ∃ cs, calls w1 = calls w ++ CallGet KSimpleApp req :: cs
        ∧ environ w1 = environ w
        ∧ ((cs = [] ∧ cluster w1 = cluster w)
           ∨ ∃ app, simpleapps (cluster w) !! req = Some app ∧ passShape app w w1 cs)).
  { exists cs1. rewrite Hc1, HGc, <- app_assoc. split; [done|]. split; [congruence|].
    right. exists app. split; [done|]. exists cs1, [], [], [].
    rewrite !app_nil_r. do 4 (split; [done || apply Forall_nil_2|]).
    split; [intros _; split; [done|congruence]|].
    left. split; [done|congruence]. }
  destruct o1 as [[d [e1|]]|]; [done| |done].
  pose proof (ensureService_summary r app w1) as (cs2 & Hc2 & He2 & Ha2 & Hd2 & Hi2 & HF2).
  destruct (ensureService r app w1) as [o2 w2]; simpl in *.
  assert (Hstop2 : ∃ cs, calls w2 = calls w ++ CallGet KSimpleApp req :: cs
        ∧ environ w2 = environ w
        ∧ ((cs = [] ∧ cluster w2 = cluster w)
           ∨ ∃ app, simpleapps (cluster w) !! req = Some app ∧ passShape app w w2 cs)).
  { exists (cs1 ++ cs2). rewrite Hc2, Hc1, HGc, <- !app_assoc.
    split; [done|]. split; [congruence|].
    right. exists app. split; [done|]. exists cs1, cs2, [], [].
    rewrite !app_nil_r. do 4 (split; [done || apply Forall_nil_2|]).
    split; [intros _; split; [done|congruence]|].
    left. split; [done|congruence]. }
  destruct o2 as [[s [e2|]]|]; [done| |done].
  pose proof (ensureIngress_summary r app w2) as (cs3 & Hc3 & He3 & Ha3 & Hd3 & Hs3 & HF3).
  assert (Hskip : routeClass w = "" -> ensureIngress r app w2 = (Returns (None, None), w2)).
  { intros Hrc. apply ensureIngress_skip.
    rewrite (routeClass_environ w w2); [done|congruence]. }
  destruct (ensureIngress r app w2) as [o3 w3]; simpl in *.
  assert (Hgate : routeClass w = "" -> cs3 = [] ∧ ingresses (cluster w3) = ingresses (cluster w)).
  { intros Hrc. specialize (Hskip Hrc). injection Hskip as _ ->.
    split; [|congruence]. apply (app_inv_head (calls w2)). by rewrite app_nil_r. }
  assert (Hstop3 : ∃ cs, calls w3 = calls w ++ CallGet KSimpleApp req :: cs
        ∧ environ w3 = environ w
        ∧ ((cs = [] ∧ cluster w3 = cluster w)
           ∨ ∃ app, simpleapps (cluster w) !! req = Some app ∧ passShape app w w3 cs)).
  { exists (cs1 ++ cs2 ++ cs3). rewrite Hc3, Hc2, Hc1, HGc, <- !app_assoc.
    split; [done|]. split; [congruence|].
    right. exists app. split; [done|]. exists cs1, cs2, cs3, [].
    rewrite !app_nil_r. do 4 (split; [done|]).
    split; [done|].
    left. split; [done|congruence]. }
  destruct o3 as [[i [e3|]]|]; [done| |done].
  destruct d as [d|]; [|done].
  case_bool_decide; simpl; [done|].
  pose proof (StatusUpdate_summary
    (setReadyReplicas (DeploymentStatus.ReadyReplicas (Deployment.Status d)) app) w3)
    as (Hc4 & He4 & Hd4 & Hs4 & Hi4 & Ha4).
  destruct (StatusUpdate _ w3) as [serr w4]; simpl in *.
  assert (Hdone : ∃ cs, calls w4 = calls w ++ CallGet KSimpleApp req :: cs
        ∧ environ w4 = environ w
        ∧ ((cs = [] ∧ cluster w4 = cluster w)
           ∨ ∃ app, simpleapps (cluster w) !! req = Some app ∧ passShape app w w4 cs)).
  { eexists (cs1 ++ cs2 ++ cs3 ++ [_]). rewrite Hc4, Hc3, Hc2, Hc1, HGc, <- !app_assoc.
    split; [done|]. split; [congruence|].
    right. exists app. split; [done|]. eexists cs1, cs2, cs3, [_].
    do 4 (split; [done|]).
    split.
    - intros Hrc. rewrite Hi4. by apply Hgate.
    - right. eexists. split; [done|].
      destruct Ha4 as [Ha4|(old & Hold & _ & Ha4)].
      + left. congruence.
      + right. exists old. cbn in Hold, Ha4 |- *.
        rewrite Ha3, Ha2, Ha1, HGcl in Hold, Ha4. done. }
  by destruct serr.
Qed.

(** ** Properties of the reconciler *)

Lemma dependentCall_not_ingress app k c :
  k ≠ KIngress -> dependentCall app k c -> callKind c ≠ KIngress.
Proof. intros Hk (Hc & _). congruence. Qed.

Lemma passShape_no_ingress app w w' cs :
  routeClass w = "" -> passShape app w w' cs ->
  Forall (λ c, callKind c ≠ KIngress) cs ∧ ingresses (cluster w') = ingresses (cluster w).
Proof.
  intros Hrc (cs1 & cs2 & cs3 & st & -> & H1 & H2 & _ & Hgate & Hst).
  destruct (Hgate Hrc) as [-> Hi]. split; [|done].
  rewrite !Forall_app. repeat split.
  - eapply Forall_impl; [exact H1|]. intros c. by apply dependentCall_not_ingress.
  - eapply Forall_impl; [exact H2|]. intros c. by apply dependentCall_not_ingress.
  - apply Forall_nil_2.
  - destruct Hst as [[-> _]|(n & -> & _)]; [apply Forall_nil_2|].
    by apply Forall_cons_2; [|apply Forall_nil_2].
Qed.

(** C5. With INGRESS_CLASS_NAME unset or empty, ensureIngress returns
    (nil, nil) and leaves the world as it is: no call is logged, no
    scheduled outcome is consumed, no object changes. A whole pass under
    this configuration makes no call on a route and leaves the stored
    routes as they are; in particular it creates none. *)
Theorem ensureIngress_without_route_class r cr req w :
  environ w !! "INGRESS_CLASS_NAME" = None
  ∨ environ w !! "INGRESS_CLASS_NAME" = Some "" ->
  ensureIngress r cr w = (Returns (None, None), w)
  ∧ ingresses (cluster (snd (Reconcile r req w))) = ingresses (cluster w)
  ∧ ∃ cs, calls (snd (Reconcile r req w)) = calls w ++ cs
          ∧ Forall (λ c, callKind c ≠ KIngress) cs.
Proof.
  intros Henv.
  assert (Hrc : routeClass w = "").
  { unfold routeClass, os_Getenv. by destruct Henv as [-> | ->]. }
  split; [by apply ensureIngress_skip|].
  destruct (Reconcile_anatomy r req w) as (cs & Hc & _ & [[-> Hcl]|(app & _ & Hshape)]).
  - split; [by rewrite Hcl|]. eexists. split; [exact Hc|].
    by apply Forall_cons_2; [|apply Forall_nil_2].
  - destruct (passShape_no_ingress _ _ _ _ Hrc Hshape) as [HF Hi].
    split; [done|]. eexists. split; [exact Hc|]. by apply Forall_cons_2.
Qed.

Lemma ensureIngress_without_route_class_witness :
  ensureIngress Example.r (Example.app "a") (Example.world0 "a" ∅)
    = (Returns (None, None), Example.world0 "a" ∅)
  ∧ ingresses (cluster (snd (Reconcile Example.r ("default", "a") (Example.world0 "a" ∅))))
    = ingresses (cluster (Example.world0 "a" ∅))
  ∧ ∃ cs, calls (snd (Reconcile Example.r ("default", "a") (Example.world0 "a" ∅)))
          = calls (Example.world0 "a" ∅) ++ cs
          ∧ Forall (λ c, callKind c ≠ KIngress) cs.
Proof.
  apply (ensureIngress_without_route_class Example.r (Example.app "a") ("default", "a")
           (Example.world0 "a" ∅)).
  left. reflexivity.
Defined.

(** C8. When the fetch of the declaration fails, the pass ends there: for
    not-found it returns a nil error, for any other error it returns that
    error; the fetch is the only call made and no object is created,
    updated or deleted. A declaration that is not stored yields not-found
    whenever the server answers the fetch. *)
Theorem Reconcile_missing_declaration r req w e w0 :
  Get (T := SimpleApp.t) req w = (inl e, w0) ->
  (e = ErrNotFound -> Reconcile r req w = (Returns None, w0))
  ∧ (e ≠ ErrNotFound -> Reconcile r req w = (Returns (Some e), w0))
  ∧ cluster w0 = cluster w
  ∧ calls w0 = calls w ++ [CallGet KSimpleApp req]
  ∧ (simpleapps (cluster w) !! req = None ->
     head (faults w) = None ∨ head (faults w) = Some None ->
     e = ErrNotFound).
Proof.
  intros HG.
  pose proof (Get_simpleapp_summary req w) as (Hc & _ & Hcl & _).
  unfold Reconcile. rewrite HG in *. simpl in *.
  split; [by intros ->|]. split; [by destruct e|].
  split; [done|]. split; [done|].
  intros Habs Hhead. revert HG. destruct w as [cl env fs cs0].
  unfold Get, pop_fault, log. simpl in *.
  destruct fs as [|[e'|] fs]; simpl in *.
  - rewrite Habs. by intros [= <- _].
  - by destruct Hhead.
  - rewrite Habs. by intros [= <- _].
Qed.

Lemma Reconcile_missing_declaration_witness :
  (ErrNotFound = ErrNotFound ->
   Reconcile Example.r ("default", "gone") Example.emptyWorld
   = (Returns None, log (CallGet KSimpleApp ("default", "gone")) Example.emptyWorld))
  ∧ (ErrNotFound ≠ ErrNotFound ->
     Reconcile Example.r ("default", "gone") Example.emptyWorld
     = (Returns (Some ErrNotFound),
        log (CallGet KSimpleApp ("default", "gone")) Example.emptyWorld))
  ∧ cluster (log (CallGet KSimpleApp ("default", "gone")) Example.emptyWorld)
    = cluster Example.emptyWorld
  ∧ calls (log (CallGet KSimpleApp ("default", "gone")) Example.emptyWorld)
    = calls Example.emptyWorld ++ [CallGet KSimpleApp ("default", "gone")]
  ∧ (simpleapps (cluster Example.emptyWorld) !! ("default", "gone") = None ->
     head (faults Example.emptyWorld) = None ∨ head (faults Example.emptyWorld) = Some None ->
     ErrNotFound = ErrNotFound).
Proof.
  apply (Reconcile_missing_declaration Example.r ("default", "gone") Example.emptyWorld
           ErrNotFound (log (CallGet KSimpleApp ("default", "gone")) Example.emptyWorld)).
  reflexivity.
Defined.

(** C9. Every create call of a reconciliation pass, and of each ensure
    operation on its own, is issued with an object that already carries
    the controller back-reference to the declaration it is made for; the
    declaration itself is never created. This holds whatever the API
    server answers. *)
Theorem creates_carry_owner_reference r req cr w :
  (∃ cs, calls (snd (Reconcile r req w)) = calls w ++ cs
         ∧ ∀ o, CallCreate o ∈ cs ->
                kindOfAny o ≠ KSimpleApp
                ∧ ∃ app, simpleapps (cluster w) !! req = Some app
                         ∧ ownedBy app (metaOfAny o))
  ∧ (∃ cs, calls (snd (ensureDeployment r cr w)) = calls w ++ cs
           ∧ ∀ o, CallCreate o ∈ cs -> ownedBy cr (metaOfAny o))
  ∧ (∃ cs, calls (snd (ensureService r cr w)) = calls w ++ cs
           ∧ ∀ o, CallCreate o ∈ cs -> ownedBy cr (metaOfAny o))
  ∧ (∃ cs, calls (snd (ensureIngress r cr w)) = calls w ++ cs
           ∧ ∀ o, CallCreate o ∈ cs -> ownedBy cr (metaOfAny o)).
Proof.
  assert (Hdep : ∀ app k cs o,
    Forall (dependentCall app k) cs -> CallCreate o ∈ cs ->
    kindOfAny o = k ∧ ownedBy app (metaOfAny o)).
  { intros app k cs o HF Hin. rewrite Forall_forall in HF.
    destruct (HF _ Hin) as (Hk & _ & Hown). split; [done|]. by apply Hown. }
  split; [|split; [|split]].
  - destruct (Reconcile_anatomy r req w) as (cs & Hc & _ & Hcs).
    eexists. split; [exact Hc|]. intros o Hin.
    apply elem_of_cons in Hin as [Hin|Hin]; [done|].
    destruct Hcs as [[-> _]|(app & Happ & cs1 & cs2 & cs3 & st & -> & H1 & H2 & H3 & _ & Hst)].
    { by apply elem_of_nil in Hin. }
    rewrite !elem_of_app in Hin.
    destruct Hin as [Hin|[Hin|[Hin|Hin]]].
    + destruct (Hdep _ _ _ _ H1 Hin) as [Hk Hown]. split; [congruence|eauto].
    + destruct (Hdep _ _ _ _ H2 Hin) as [Hk Hown]. split; [congruence|eauto].
    + destruct (Hdep _ _ _ _ H3 Hin) as [Hk Hown]. split; [congruence|eauto].
    + destruct Hst as [[-> _]|(n & -> & _)].
      * by apply elem_of_nil in Hin.
      * apply elem_of_cons in Hin as [Hin|Hin]; [done|]. by apply elem_of_nil in Hin.
  - destruct (ensureDeployment_summary r cr w) as (cs & Hc & _ & _ & _ & _ & HF).
    exists cs. split; [done|]. intros o Hin. by destruct (Hdep _ _ _ _ HF Hin).
  - destruct (ensureService_summary r cr w) as (cs & Hc & _ & _ & _ & _ & HF).
    exists cs. split; [done|]. intros o Hin. by destruct (Hdep _ _ _ _ HF Hin).
  - destruct (ensureIngress_summary r cr w) as (cs & Hc & _ & _ & _ & _ & HF).
    exists cs. split; [done|]. intros o Hin. by destruct (Hdep _ _ _ _ HF Hin).
Qed.

(** C7. In a pass that reaches the status step (the fetch and the three
    ensure operations succeeded), the status is written back exactly when
    the stored readyReplicas differs from the workload's: if they are
    equal the pass ends with no further call, otherwise it makes one
    status write of the declaration as fetched with readyReplicas set to
    the workload's count and the serviceStatus as fetched; when the server
    accepts it, the stored declaration has the workload's count. No other
    call of the pass is a status write, and whatever happens in a pass the
    stored declarations keep their metadata, spec and serviceStatus. *)
Theorem status_mirroring r req w app w0 dep w1 svc w2 ing w3 :
  keyOf app = req ->
  Get (T := SimpleApp.t) req w = (inr app, w0) ->
  ensureDeployment r app w0 = (Returns (Some dep, None), w1) ->
  ensureService r app w1 = (Returns (svc, None), w2) ->
  ensureIngress r app w2 = (Returns (ing, None), w3) ->
  let ready := DeploymentStatus.ReadyReplicas (Deployment.Status dep) in
  let written :=
    SimpleApp.mk (SimpleApp.Meta app) (SimpleApp.Spec app)
      (SimpleAppStatus.mk ready (SimpleAppStatus.ServiceStatus (SimpleApp.Status app))) in
  (SimpleAppStatus.ReadyReplicas (SimpleApp.Status app) = ready ->
   Reconcile r req w = (Returns None, w3))
  ∧ (SimpleAppStatus.ReadyReplicas (SimpleApp.Status app) ≠ ready ->
     Reconcile r req w = (Returns (fst (StatusUpdate written w3)), snd (StatusUpdate written w3))
     ∧ calls (snd (Reconcile r req w)) = calls w3 ++ [CallStatusUpdate (ASimpleApp written)]
     ∧ SimpleAppStatus.ReadyReplicas (SimpleApp.Status written) = ready
     ∧ SimpleAppStatus.ServiceStatus (SimpleApp.Status written)
       = SimpleAppStatus.ServiceStatus (SimpleApp.Status app)
     ∧ (fst (StatusUpdate written w3) = None ->
        simpleapps (cluster (snd (Reconcile r req w))) !! req = Some written
        ∧ ∀ a, simpleapps (cluster (snd (Reconcile r req w))) !! req = Some a ->
               SimpleAppStatus.ReadyReplicas (SimpleApp.Status a)
               = DeploymentStatus.ReadyReplicas (Deployment.Status dep)))
  ∧ (∃ cs, calls w3 = calls w ++ cs ∧ Forall (λ c, isStatusWrite c = false) cs)
  ∧ (∀ k a', simpleapps (cluster (snd (Reconcile r req w))) !! k = Some a' ->
       ∃ a, simpleapps (cluster w) !! k = Some a
            ∧ SimpleApp.Meta a' = SimpleApp.Meta a
            ∧ SimpleApp.Spec a' = SimpleApp.Spec a
            ∧ SimpleAppStatus.ServiceStatus (SimpleApp.Status a')
              = SimpleAppStatus.ServiceStatus (SimpleApp.Status a)).
Proof.
  intros Hkey HG H1 H2 H3 ready written.
  pose proof (Get_simpleapp_summary req w) as (HGc & _ & HGcl & HGapp).
  pose proof (ensureDeployment_summary r app w0) as (cs1 & Hc1 & _ & Ha1 & _ & _ & HF1).
  pose proof (ensureService_summary r app w1) as (cs2 & Hc2 & _ & Ha2 & _ & _ & HF2).
  pose proof (ensureIngress_summary r app w2) as (cs3 & Hc3 & _ & Ha3 & _ & _ & HF3).
  rewrite HG in *. rewrite H1 in *. rewrite H2 in *. rewrite H3 in *. simpl in *.
  specialize (HGapp app eq_refl).
  assert (Happ3 : simpleapps (cluster w3) = simpleapps (cluster w)) by congruence.
  assert (Hrun : Reconcile r req w =
    if negb (bool_decide (SimpleAppStatus.ReadyReplicas (SimpleApp.Status app) = ready))
    then (Returns (fst (StatusUpdate written w3)), snd (StatusUpdate written w3))
    else (Returns None, w3)).
  { unfold Reconcile. rewrite HG, H1, H2, H3. fold ready. case_bool_decide; simpl; [done|].
    change (setReadyReplicas ready app) with written.
    by destruct (StatusUpdate written w3) as [[?|] ?]. }
  pose proof (StatusUpdate_summary written w3) as (Hc4 & _ & _ & _ & _ & Ha4).
  assert (Hstored : fst (StatusUpdate written w3) = None ->
    simpleapps (cluster (snd (StatusUpdate written w3)))
    = <[req := written]> (simpleapps (cluster w))).
  { clear Ha4 Hc4. destruct w3 as [cl3 env3 fs3 cs03].
    unfold StatusUpdate, pop_fault, log, set_cluster. cbn in *.
    change (keyOf written) with (keyOf app). rewrite Hkey.
    destruct fs3 as [|[e|] fs3]; cbn; try done.
    all: rewrite Happ3, HGapp; cbn.
    all: intros _; by destruct app as [m s [rr ss]]. }
  split; [|split; [|split]].
  - intros Heq. rewrite Hrun. by rewrite bool_decide_eq_true_2.
  - intros Hne. rewrite Hrun. rewrite bool_decide_eq_false_2 by done. simpl.
    split; [done|]. split; [done|]. split; [done|]. split; [done|].
    intros Hok. rewrite (Hstored Hok), lookup_insert_eq.
    split; [done|]. by intros a [= <-].
  - exists ([CallGet KSimpleApp req] ++ cs1 ++ cs2 ++ cs3). split.
    + rewrite Hc3, Hc2, Hc1, HGc. by rewrite <- !app_assoc.
    + rewrite !Forall_app. repeat split.
      * by apply Forall_cons_2; [|apply Forall_nil_2].
      * eapply Forall_impl; [exact HF1|]. by intros c (_ & ? & _).
      * eapply Forall_impl; [exact HF2|]. by intros c (_ & ? & _).
      * eapply Forall_impl; [exact HF3|]. by intros c (_ & ? & _).
  - intros k a'. rewrite Hrun. case_bool_decide; simpl.
    { rewrite Happ3. eauto. }
    destruct Ha4 as [Ha4|(old & _ & Hok & _)].
    { rewrite Ha4, Happ3. eauto. }
    rewrite (Hstored Hok). destruct (decide (k = req)) as [->|Hk].
    + rewrite lookup_insert_eq. intros [= <-]. exists app. by repeat split.
    + rewrite lookup_insert_ne by done. eauto.
Qed.

(** ** The ensure operations when the API server answers every call *)

(** Unfold an ensure operation in a world with nothing scheduled. *)
Ltac run_answered w Hf Hs :=
  destruct w as [?cl ?env ?fs ?cs0]; cbn in Hf; subst;
  rewrite SetControllerReference_fresh by done;
  rewrite (GVKForObject_registered _ _ Hs);
  unfold Get, Create, Update, pop_fault, log, set_cluster, after, keyOf,
    withDeployment, withService, withIngress, appKey, ingressKey, ObjectMeta.key in *;
  cbn in *.

Lemma ensureDeployment_creates r cr w gvk :
  registered r gvk ->
  faults w = [] ->
  deployments (cluster w) !! appKey cr = None ->
  let dep := stamped cr gvk (Desired.deployment cr) in
  ensureDeployment r cr w =
    (Returns (Some dep, None),
     after [CallGet KDeployment (appKey cr); CallCreate (ADeployment dep)]
       (withDeployment (appKey cr) dep (cluster w)) w).
Proof.
  intros Hs Hf Habs dep. unfold ensureDeployment. run_answered w Hf Hs.
  rewrite Habs. cbn. rewrite Habs. by rewrite <- app_assoc.
Qed.

Lemma ensureService_creates r cr w gvk :
  registered r gvk ->
  faults w = [] ->
  services (cluster w) !! appKey cr = None ->
  let svc := stamped cr gvk (Desired.service cr) in
  ensureService r cr w =
    (Returns (Some svc, None),
     after [CallGet KService (appKey cr); CallCreate (AService svc)]
       (withService (appKey cr) svc (cluster w)) w).
Proof.
  intros Hs Hf Habs svc. unfold ensureService. run_answered w Hf Hs.
  rewrite Habs. cbn. rewrite Habs. by rewrite <- app_assoc.
Qed.

Lemma ensureIngress_creates r cr w gvk :
  registered r gvk ->
  faults w = [] ->
  routeClass w ≠ "" ->
  ingresses (cluster w) !! ingressKey cr = None ->
  let ing := stamped cr gvk (Desired.ingress cr (routeClass w)) in
  ensureIngress r cr w =
    (Returns (Some ing, None),
     after [CallGet KIngress (ingressKey cr); CallCreate (AIngress ing)]
       (withIngress (ingressKey cr) ing (cluster w)) w).
Proof.
  intros Hs Hf Hrc Habs ing. unfold ensureIngress. fold (routeClass w).
  rewrite bool_decide_eq_false_2 by done. subst ing.
  generalize dependent (routeClass w). intros c Hc.
  run_answered w Hf Hs.
  rewrite Habs. cbn. rewrite Habs. by rewrite <- app_assoc.
Qed.

Lemma ensureDeployment_keeps r cr w gvk existing ec ecs :
  registered r gvk ->
  faults w = [] ->
  deployments (cluster w) !! appKey cr = Some existing ->
  deploymentReplicas existing = Some (SimpleAppSpec.Replicas (SimpleApp.Spec cr)) ->
  deploymentContainers existing = ec :: ecs ->
  Container.Image ec = SimpleAppSpec.Image (SimpleApp.Spec cr) ->
  ensureDeployment r cr w =
    (Returns (Some existing, None), after [CallGet KDeployment (appKey cr)] (cluster w) w).
Proof.
  intros Hs Hf Hex Hrep Hcont Hi. unfold ensureDeployment. run_answered w Hf Hs.
  rewrite Hex. cbn. rewrite Hrep, Hcont.
  by rewrite !bool_decide_eq_true_2.
Qed.

Lemma ensureDeployment_patches r cr w gvk existing er ec ecs :
  registered r gvk ->
  faults w = [] ->
  deployments (cluster w) !! appKey cr = Some existing ->
  keyOf existing = appKey cr ->
  deploymentReplicas existing = Some er ->
  deploymentContainers existing = ec :: ecs ->
  er ≠ SimpleAppSpec.Replicas (SimpleApp.Spec cr)
  ∨ Container.Image ec ≠ SimpleAppSpec.Image (SimpleApp.Spec cr) ->
  ensureDeployment r cr w =
    (Returns (Some (patchDeployment cr ec ecs existing), None),
     after [CallGet KDeployment (appKey cr);
            CallUpdate (ADeployment (patchDeployment cr ec ecs existing))]
       (withDeployment (appKey cr) (patchDeployment cr ec ecs existing) (cluster w)) w).
Proof.
  intros Hs Hf Hex Hkey Hrep Hcont Hdiff. unfold ensureDeployment, patchDeployment.
  run_answered w Hf Hs.
  rewrite Hex. cbn. rewrite Hrep, Hcont.
  set (needs := if negb _ then true else _).
  assert (Hneed : needs = true).
  { subst needs. repeat case_bool_decide; try done. by destruct Hdiff. }
  rewrite Hneed.
  set (patched := setContainers _ _).
  change (Deployment.Meta patched) with (Deployment.Meta existing).
  rewrite Hkey, Hex. by rewrite <- app_assoc.
Qed.

Lemma ensureService_keeps r cr w gvk existing ep eps :
  registered r gvk ->
  faults w = [] ->
  services (cluster w) !! appKey cr = Some existing ->
  ServiceSpec.Ports (Service.Spec existing) = ep :: eps ->
  ServicePort.Port ep = SimpleAppSpec.ServicePort (SimpleApp.Spec cr) ->
  ServicePort.TargetPort ep
  = intstr.FromInt (SimpleAppSpec.ContainerPort (SimpleApp.Spec cr)) ->
  ensureService r cr w =
    (Returns (Some existing, None), after [CallGet KService (appKey cr)] (cluster w) w).
Proof.
  intros Hs Hf Hex Hports Hp Ht. unfold ensureService. run_answered w Hf Hs.
  rewrite Hex. cbn. rewrite Hports.
  by rewrite !bool_decide_eq_true_2.
Qed.

Lemma ensureService_patches r cr w gvk existing ep eps :
  registered r gvk ->
  faults w = [] ->
  services (cluster w) !! appKey cr = Some existing ->
  keyOf existing = appKey cr ->
  ServiceSpec.Ports (Service.Spec existing) = ep :: eps ->
  ServicePort.Port ep ≠ SimpleAppSpec.ServicePort (SimpleApp.Spec cr)
  ∨ ServicePort.TargetPort ep
    ≠ intstr.FromInt (SimpleAppSpec.ContainerPort (SimpleApp.Spec cr)) ->
  ensureService r cr w =
    (Returns (Some (patchService cr existing), None),
     after [CallGet KService (appKey cr); CallUpdate (AService (patchService cr existing))]
       (withService (appKey cr) (patchService cr existing) (cluster w)) w).
Proof.
  intros Hs Hf Hex Hkey Hports Hdiff. unfold ensureService, patchService.
  run_answered w Hf Hs.
  rewrite Hex. cbn. rewrite Hports.
  set (needs := negb _ || negb _).
  assert (Hneed : needs = true).
  { subst needs. repeat case_bool_decide; try done. by destruct Hdiff. }
  rewrite Hneed.
  set (patched := setPorts _ _).
  change (Service.Meta patched) with (Service.Meta existing).
  rewrite Hkey, Hex. by rewrite <- app_assoc.
Qed.

(** The earlier copy of ensureService never writes to an existing
    endpoint: port drift is left as it is. *)
Lemma Legacy_ensureService_existing r cr w gvk existing :
  registered r gvk ->
  faults w = [] ->
  services (cluster w) !! appKey cr = Some existing ->
  Legacy.ensureService r cr w =
    (Returns (Some existing, None), after [CallGet KService (appKey cr)] (cluster w) w).
Proof.
  intros Hs Hf Hex. unfold Legacy.ensureService. run_answered w Hf Hs.
  by rewrite Hex.
Qed.

Lemma ensureIngress_keeps r cr w gvk existing :
  registered r gvk ->
  faults w = [] ->
  routeClass w ≠ "" ->
  ingresses (cluster w) !! ingressKey cr = Some existing ->
  IngressSpec.IngressClassName (Ingress.Spec existing) = Some (routeClass w)
  ∨ IngressSpec.IngressClassName (Ingress.Spec existing) = None ->
  ensureIngress r cr w =
    (Returns (Some existing, None), after [CallGet KIngress (ingressKey cr)] (cluster w) w).
Proof.
  intros Hs Hf Hrc Hex Hc. unfold ensureIngress. fold (routeClass w).
  rewrite bool_decide_eq_false_2 by done.
  set (class := routeClass w) in *. clearbody class.
  run_answered w Hf Hs.
  rewrite Hex. cbn. destruct Hc as [-> | ->]; [|done].
  by rewrite bool_decide_eq_true_2.
Qed.

Lemma ensureIngress_patches r cr w gvk existing c :
  registered r gvk ->
  faults w = [] ->
  routeClass w ≠ "" ->
  ingresses (cluster w) !! ingressKey cr = Some existing ->
  keyOf existing = ingressKey cr ->
  IngressSpec.IngressClassName (Ingress.Spec existing) = Some c ->
  c ≠ routeClass w ->
  ensureIngress r cr w =
    (Returns (Some (setIngressClassName (Some (routeClass w)) existing), None),
     after [CallGet KIngress (ingressKey cr);
            CallUpdate (AIngress (setIngressClassName (Some (routeClass w)) existing))]
       (withIngress (ingressKey cr)
          (setIngressClassName (Some (routeClass w)) existing) (cluster w)) w).
Proof.
  intros Hs Hf Hrc Hex Hkey Hc Hne. unfold ensureIngress. fold (routeClass w).
  rewrite bool_decide_eq_false_2 by done.
  set (class := routeClass w) in *. clearbody class.
  run_answered w Hf Hs.
  rewrite Hex. cbn. rewrite Hc. rewrite bool_decide_eq_false_2 by done. cbn.
  rewrite Hkey, Hex. by rewrite <- app_assoc.
Qed.

(** C3. For an existing workload (stored under its own key, with a replica
    count and at least one container, as the API server keeps them),
    ensureDeployment compares the replica count and the image of the first
    container only. When both match it makes the read and nothing else,
    and returns the workload as stored. When either differs it makes one
    update that sets these two fields; metadata (labels included),
    selector, pod-template metadata, status, the other containers and the
    other fields of the first container are those of the stored object. *)
Theorem ensureDeployment_narrow_diff r cr w gvk existing er ec ecs :
  registered r gvk ->
  faults w = [] ->
  deployments (cluster w) !! appKey cr = Some existing ->
  keyOf existing = appKey cr ->
  deploymentReplicas existing = Some er ->
  deploymentContainers existing = ec :: ecs ->
  let replicas := SimpleAppSpec.Replicas (SimpleApp.Spec cr) in
  let image := SimpleAppSpec.Image (SimpleApp.Spec cr) in
  let patched := patchDeployment cr ec ecs existing in
  (er = replicas ∧ Container.Image ec = image ->
   ensureDeployment r cr w =
     (Returns (Some existing, None),
      after [CallGet KDeployment (appKey cr)] (cluster w) w))
  ∧ (er ≠ replicas ∨ Container.Image ec ≠ image ->
     ensureDeployment r cr w =
       (Returns (Some patched, None),
        after [CallGet KDeployment (appKey cr); CallUpdate (ADeployment patched)]
          (withDeployment (appKey cr) patched (cluster w)) w))
  ∧ Deployment.Meta patched = Deployment.Meta existing
  ∧ DeploymentSpec.Selector (Deployment.Spec patched)
    = DeploymentSpec.Selector (Deployment.Spec existing)
  ∧ PodTemplateSpec.Meta (DeploymentSpec.Template (Deployment.Spec patched))
    = PodTemplateSpec.Meta (DeploymentSpec.Template (Deployment.Spec existing))
  ∧ Deployment.Status patched = Deployment.Status existing
  ∧ deploymentReplicas patched = Some replicas
  ∧ deploymentContainers patched
    = Container.mk (Container.Name ec) image (Container.ImagePullPolicy ec) (Container.Ports ec)
      :: ecs.
Proof.
  intros Hs Hf Hex Hkey Hrep Hcont replicas image patched.
  split; [|split; [|by repeat split]].
  - intros [-> Hi]. by eapply ensureDeployment_keeps.
  - intros Hdiff. by eapply ensureDeployment_patches.
Qed.

(** What ensureService does with an existing endpoint that has at least
    one port (stored under its own key): it compares the port and the
    target port of the first port entry with the declaration's servicePort
    and containerPort, the latter as the integer target
    [IntOrString{Type: Int, IntVal: containerPort}]. When both match it
    makes the read and nothing else, and returns the endpoint as stored.
    When either differs it makes one update that replaces the port list
    by the desired mapping; metadata, selector and type are those of the
    stored object. *)
Theorem ensureService_port_diff r cr w gvk existing ep eps :
  registered r gvk ->
  faults w = [] ->
  services (cluster w) !! appKey cr = Some existing ->
  keyOf existing = appKey cr ->
  ServiceSpec.Ports (Service.Spec existing) = ep :: eps ->
  let port := SimpleAppSpec.ServicePort (SimpleApp.Spec cr) in
  let target := intstr.FromInt (SimpleAppSpec.ContainerPort (SimpleApp.Spec cr)) in
  let patched := patchService cr existing in
  (ServicePort.Port ep = port ∧ ServicePort.TargetPort ep = target ->
   ensureService r cr w =
     (Returns (Some existing, None),
      after [CallGet KService (appKey cr)] (cluster w) w))
  ∧ (ServicePort.Port ep ≠ port ∨ ServicePort.TargetPort ep ≠ target ->
     ensureService r cr w =
       (Returns (Some patched, None),
        after [CallGet KService (appKey cr); CallUpdate (AService patched)]
          (withService (appKey cr) patched (cluster w)) w))
  ∧ Service.Meta patched = Service.Meta existing
  ∧ ServiceSpec.Selector (Service.Spec patched) = ServiceSpec.Selector (Service.Spec existing)
  ∧ ServiceSpec.Type' (Service.Spec patched) = ServiceSpec.Type' (Service.Spec existing)
  ∧ ServiceSpec.Ports (Service.Spec patched) = [ServicePort.mk port target].
Proof.
  intros Hs Hf Hex Hkey Hports port target patched.
  split; [|split; [|by repeat split]].
  - intros [Hp Ht]. by eapply ensureService_keeps.
  - intros Hdiff. by eapply ensureService_patches.
Qed.

(** C4. The claim fails on endpoints the code can be handed. On a stored
    endpoint without ports (a headless Service under the declaration's
    name) ensureService neither patches nor returns: it indexes Ports[0]
    and panics after the read. And the copy of ensureService in
    internal/controller, against its own comment "creates or updates the
    Service", has no update branch: an endpoint stored with port 9090 for
    a declaration asking for 8080 (target 80, the integer
    [IntOrString{Int, 80}]) is returned as read, with no update call. *)
Theorem ensureService_misses_existing_endpoints :
  (services (cluster Scenario.portlessWorld) !! appKey (Example.app "a")
   = Some Scenario.portlessService
   ∧ ServiceSpec.Ports (Service.Spec Scenario.portlessService) = []
   ∧ ensureService Example.r (Example.app "a") Scenario.portlessWorld
     = (Panics,
        after [CallGet KService (appKey (Example.app "a"))]
          (cluster Scenario.portlessWorld) Scenario.portlessWorld))
  ∧ (services (cluster Example.driftedWorld) !! appKey (Example.app "a")
     = Some Example.driftedService
     ∧ ServiceSpec.Ports (Service.Spec Example.driftedService)
       = [ServicePort.mk 9090 (intstr.mk intstr.Int 80 "")]
     ∧ ServiceSpec.Ports (Service.Spec (Desired.service (Example.app "a")))
       = [ServicePort.mk 8080 (intstr.mk intstr.Int 80 "")]
     ∧ Legacy.ensureService Example.r (Example.app "a") Example.driftedWorld
       = (Returns (Some Example.driftedService, None),
          after [CallGet KService (appKey (Example.app "a"))]
            (cluster Example.driftedWorld) Example.driftedWorld)).
Proof.
  split; split_and!; vm_compute; reflexivity.
Qed.

(** C6, amended. With a route class configured and a route stored under
    the route key, ensureIngress looks at the class field only. A class
    that is set and differs from the resolved one is replaced in one
    update that keeps metadata and rules as stored; a route whose class is
    the resolved one, or whose class is not set at all, is returned as
    stored after the read alone. Host and path rules are never written. *)
Theorem ensureIngress_class_diff r cr w gvk existing :
  registered r gvk ->
  faults w = [] ->
  routeClass w ≠ "" ->
  ingresses (cluster w) !! ingressKey cr = Some existing ->
  keyOf existing = ingressKey cr ->
  let class := routeClass w in
  let patched := setIngressClassName (Some class) existing in
  (∀ c, IngressSpec.IngressClassName (Ingress.Spec existing) = Some c -> c ≠ class ->
     ensureIngress r cr w =
       (Returns (Some patched, None),
        after [CallGet KIngress (ingressKey cr); CallUpdate (AIngress patched)]
          (withIngress (ingressKey cr) patched (cluster w)) w))
  ∧ (IngressSpec.IngressClassName (Ingress.Spec existing) = Some class
     ∨ IngressSpec.IngressClassName (Ingress.Spec existing) = None ->
     ensureIngress r cr w =
       (Returns (Some existing, None),
        after [CallGet KIngress (ingressKey cr)] (cluster w) w))
  ∧ Ingress.Meta patched = Ingress.Meta existing
  ∧ IngressSpec.Rules (Ingress.Spec patched) = IngressSpec.Rules (Ingress.Spec existing)
  ∧ IngressSpec.IngressClassName (Ingress.Spec patched) = Some class.
Proof.
  intros Hs Hf Hrc Hex Hkey class patched.
  split; [|split; [|by repeat split]].
  - intros c Hc Hne. by eapply ensureIngress_patches.
  - intros Hc. by eapply ensureIngress_keeps.
Qed.

Lemma Get_answered {T} `{Object T} key w :
  faults w = [] ->
  Get key w =
    (match objects (cluster w) !! key with
     | Some o => inr o
     | None => inl ErrNotFound
     end,
     after [CallGet kindOf key] (cluster w) w).
Proof.
  intros Hf. destruct w as [cl env fs cs0]. cbn in Hf. subst.
  unfold Get, pop_fault, log, after. cbn. by destruct (objects cl !! key).
Qed.

(** C1. A declaration with image nginx:latest, 2 replicas, containerPort
    80 and servicePort 8080, reconciled with no route class configured,
    no workload or endpoint stored under its key and an API server that
    answers: the pass succeeds; it creates one Deployment, named after the
    declaration, with 2 replicas and the single container "app" running
    nginx:latest on container port 80, and one ClusterIP Service with
    selector {app: name} forwarding 8080 to 80; these are its only creates
    and updates, and the stored routes are as before. *)
Theorem create_then_converge r req w app gvk :
  registered r gvk ->
  faults w = [] ->
  routeClass w = "" ->
  simpleapps (cluster w) !! req = Some app ->
  keyOf app = req ->
  SimpleApp.Spec app = SimpleAppSpec.mk "nginx:latest" 2 80 8080 ->
  deployments (cluster w) !! req = None ->
  services (cluster w) !! req = None ->
  let name := ObjectMeta.Name (SimpleApp.Meta app) in
  let dep := stamped app gvk (Desired.deployment app) in
  let svc := stamped app gvk (Desired.service app) in
  fst (Reconcile r req w) = Returns None
  ∧ deployments (cluster (snd (Reconcile r req w))) = <[req := dep]> (deployments (cluster w))
  ∧ services (cluster (snd (Reconcile r req w))) = <[req := svc]> (services (cluster w))
  ∧ ingresses (cluster (snd (Reconcile r req w))) = ingresses (cluster w)
  ∧ (∃ st, calls (snd (Reconcile r req w))
           = calls w ++ [CallGet KSimpleApp req;
                         CallGet KDeployment req; CallCreate (ADeployment dep);
                         CallGet KService req; CallCreate (AService svc)] ++ st
           ∧ Forall (λ c, isStatusWrite c = true) st)
  ∧ ObjectMeta.Name (Deployment.Meta dep) = name
  ∧ deploymentReplicas dep = Some 2
  ∧ deploymentContainers dep
    = [Container.mk "app" "nginx:latest" PullIfNotPresent [ContainerPort.mk 80]]
  ∧ ObjectMeta.Name (Service.Meta svc) = name
  ∧ ServiceSpec.Selector (Service.Spec svc) = {[ "app" := name ]}
  ∧ ServiceSpec.Ports (Service.Spec svc)
    = [ServicePort.mk 8080 (intstr.mk intstr.Int 80 "")]
  ∧ ServiceSpec.Type' (Service.Spec svc) = ServiceTypeClusterIP.
Proof.
  intros Hs Hf Hrc Happ Hkey Hspec Hnod Hnos name dep svc.
  assert (Hk : appKey app = req) by done.
  assert (Hfields :
    deploymentReplicas dep = Some 2
    ∧ deploymentContainers dep
      = [Container.mk "app" "nginx:latest" PullIfNotPresent [ContainerPort.mk 80]]
    ∧ ServiceSpec.Ports (Service.Spec svc)
      = [ServicePort.mk 8080 (intstr.mk intstr.Int 80 "")]).
  { subst dep svc. cbn. by rewrite Hspec. }
  destruct Hfields as (Hrep & Hcont & Hports).
  match goal with
  | |- ?A ∧ ?B ∧ ?C ∧ ?D ∧ ?E ∧ _ =>
      enough (Hrun : A ∧ B ∧ C ∧ D ∧ E);
      [destruct Hrun as (? & ? & ? & ? & ?); by split_and!|]
  end.
  unfold Reconcile. rewrite Get_answered by done. cbn. rewrite Happ.
  rewrite (ensureDeployment_creates r app _ gvk); [|done|done|by rewrite Hk].
  rewrite (ensureService_creates r app _ gvk); [|done|done|by rewrite Hk].
  rewrite ensureIngress_skip by done.
  rewrite Hk. subst dep svc.
  destruct w as [cl env fs cs0]. cbn in Hf, Happ, Hnod, Hnos |- *. subst fs.
  case_bool_decide; cbn.
  - rewrite <- !app_assoc. split_and!; try done.
    exists []. by split; [|apply Forall_nil_2].
  - unfold StatusUpdate, pop_fault, log, after, set_cluster. cbn.
    change (keyOf (setReadyReplicas 0 app)) with (keyOf app). rewrite Hkey, Happ. cbn.
    rewrite <- !app_assoc. split_and!; try done.
    eexists [_]. split; [done|]. by apply Forall_cons_2; [|apply Forall_nil_2].
Qed.

(** ** Running an ensure operation twice *)

Lemma GVKForObject_inr s gvk : GVKForObject s = inr gvk -> ObjectKinds s = [gvk].
Proof.
  unfold GVKForObject. destruct (ObjectKinds s) as [|g [|g' l]]; try done.
  by intros [= ->].
Qed.

Lemma ensureDeployment_converges r cr w o w1 :
  (∀ d, deployments (cluster w) !! appKey cr = Some d -> keyOf d = appKey cr) ->
  ensureDeployment r cr w = (Returns (o, None), w1) ->
  ∃ gvk d ec ecs,
    registered r gvk
    ∧ deployments (cluster w1) !! appKey cr = Some d
    ∧ deploymentReplicas d = Some (SimpleAppSpec.Replicas (SimpleApp.Spec cr))
    ∧ deploymentContainers d = ec :: ecs
    ∧ Container.Image ec = SimpleAppSpec.Image (SimpleApp.Spec cr).
Proof.
  intros Hwf. unfold ensureDeployment. rewrite SetControllerReference_fresh by done.
  destruct (GVKForObject (scheme r)) as [e|gvk] eqn:Hgvk; [done|].
  apply GVKForObject_inr in Hgvk.
  destruct w as [cl env fs cs0]. unfold appKey, ObjectMeta.key, keyOf in *. cbn in Hwf.
  unfold Get, Create, Update, pop_fault, log, set_cluster, keyOf. cbn.
  repeat client_step; intros [= <- <-]; cbn.
  all: exists gvk; unfold ObjectMeta.key in *; cbn in *.
  all: try match goal with
           | H : deployments _ !! _ = Some _ |- _ => rewrite (Hwf _ H) in *
           end.
  all: rewrite ?lookup_insert_eq.
  all: eexists _, _, _; split; [done|]; split; [eassumption || reflexivity|].
  all: cbn; repeat case_bool_decide; simplify_eq; try done.
Qed.

Lemma ensureService_converges r cr w o w1 :
  (∀ s, services (cluster w) !! appKey cr = Some s -> keyOf s = appKey cr) ->
  ensureService r cr w = (Returns (o, None), w1) ->
  ∃ gvk s ep eps,
    registered r gvk
    ∧ services (cluster w1) !! appKey cr = Some s
    ∧ ServiceSpec.Ports (Service.Spec s) = ep :: eps
    ∧ ServicePort.Port ep = SimpleAppSpec.ServicePort (SimpleApp.Spec cr)
    ∧ ServicePort.TargetPort ep
      = intstr.FromInt (SimpleAppSpec.ContainerPort (SimpleApp.Spec cr)).
Proof.
  intros Hwf. unfold ensureService. rewrite SetControllerReference_fresh by done.
  destruct (GVKForObject (scheme r)) as [e|gvk] eqn:Hgvk; [done|].
  apply GVKForObject_inr in Hgvk.
  destruct w as [cl env fs cs0]. unfold appKey, ObjectMeta.key, keyOf in *. cbn in Hwf.
  unfold Get, Create, Update, pop_fault, log, set_cluster, keyOf. cbn.
  repeat client_step; intros [= <- <-]; cbn.
  all: exists gvk; unfold ObjectMeta.key in *; cbn in *.
  all: try match goal with
           | H : services _ !! _ = Some _ |- _ => rewrite (Hwf _ H) in *
           end.
  all: rewrite ?lookup_insert_eq.
  all: eexists _, _, _; split; [done|]; split; [eassumption || reflexivity|].
  all: cbn; repeat case_bool_decide; simplify_eq; try done.
Qed.

Lemma ensureIngress_converges r cr w o w1 :
  (∀ i, ingresses (cluster w) !! ingressKey cr = Some i -> keyOf i = ingressKey cr) ->
  routeClass w ≠ "" ->
  ensureIngress r cr w = (Returns (o, None), w1) ->
  ∃ gvk i,
    registered r gvk
    ∧ ingresses (cluster w1) !! ingressKey cr = Some i
    ∧ (IngressSpec.IngressClassName (Ingress.Spec i) = Some (routeClass w)
       ∨ IngressSpec.IngressClassName (Ingress.Spec i) = None).
Proof.
  intros Hwf Hrc. unfold ensureIngress. fold (routeClass w).
  rewrite bool_decide_eq_false_2 by done.
  set (class := routeClass w) in *. clearbody class.
  rewrite SetControllerReference_fresh by done.
  destruct (GVKForObject (scheme r)) as [e|gvk] eqn:Hgvk; [done|].
  apply GVKForObject_inr in Hgvk.
  destruct w as [cl env fs cs0]. unfold ingressKey, ObjectMeta.key, keyOf in *. cbn in Hwf.
  unfold Get, Create, Update, pop_fault, log, set_cluster, keyOf. cbn.
  repeat client_step; intros [= <- <-]; cbn.
  all: exists gvk; unfold ObjectMeta.key in *; cbn in *.
  all: try match goal with
           | H : ingresses _ !! _ = Some _ |- _ => rewrite (Hwf _ H) in *
           end.
  all: rewrite ?lookup_insert_eq.
  all: eexists; split; [done|]; split; [eassumption || reflexivity|].
  all: cbn; repeat case_bool_decide; simplify_eq; eauto.
Qed.

(** C2. Idempotence. Take any of the three ensure operations, run it in a
    world whose dependents are stored under their own keys, and suppose it
    returns a nil error. Run again for the same declaration in the world
    it left (same environment, the API server answering), it returns a nil
    error again, leaves every stored object as it is, and makes no create,
    update or status-update call. *)
Theorem ensure_twice_no_writes op r cr w :
  storedUnderOwnKeys (cluster w) ->
  fst (runEnsure op r cr w) = Returns None ->
  faults (snd (runEnsure op r cr w)) = [] ->
  fst (runEnsure op r cr (snd (runEnsure op r cr w))) = Returns None
  ∧ cluster (snd (runEnsure op r cr (snd (runEnsure op r cr w))))
    = cluster (snd (runEnsure op r cr w))
  ∧ environ (snd (runEnsure op r cr w)) = environ w
  ∧ ∃ cs, calls (snd (runEnsure op r cr (snd (runEnsure op r cr w))))
          = calls (snd (runEnsure op r cr w)) ++ cs
          ∧ Forall (λ c, mutating c = false) cs.
Proof.
  intros (Hwd & Hws & Hwi) Hok Hf. destruct op; cbn in *.
  - pose proof (ensureDeployment_summary r cr w) as (_ & _ & Henv & _).
    destruct (ensureDeployment r cr w) as [[[o [e|]]|] w1] eqn:Hrun; try done.
    cbn in *.
    destruct (ensureDeployment_converges r cr w o w1) as (gvk & d & ec & ecs & Hs & Hd & Hr & Hc & Hi);
      [by intros d; apply Hwd|done|].
    rewrite (ensureDeployment_keeps r cr w1 gvk d ec ecs) by done. cbn.
    split_and!; try done. eexists. split; [done|].
    by apply Forall_cons_2; [|apply Forall_nil_2].
  - pose proof (ensureService_summary r cr w) as (_ & _ & Henv & _).
    destruct (ensureService r cr w) as [[[o [e|]]|] w1] eqn:Hrun; try done.
    cbn in *.
    destruct (ensureService_converges r cr w o w1) as (gvk & s & ep & eps & Hs & Hd & Hp & Hpo & Ht);
      [by intros s; apply Hws|done|].
    rewrite (ensureService_keeps r cr w1 gvk s ep eps) by done. cbn.
    split_and!; try done. eexists. split; [done|].
    by apply Forall_cons_2; [|apply Forall_nil_2].
  - pose proof (ensureIngress_summary r cr w) as (_ & _ & Henv & _).
    destruct (decide (routeClass w = "")) as [Hrc|Hrc].
    { rewrite (ensureIngress_skip r cr w) in * by done. cbn in *.
      rewrite (ensureIngress_skip r cr w) by done. cbn.
      split_and!; try done. exists []. by rewrite app_nil_r. }
    destruct (ensureIngress r cr w) as [[[o [e|]]|] w1] eqn:Hrun; try done.
    cbn in *.
    destruct (ensureIngress_converges r cr w o w1) as (gvk & i & Hs & Hi & Hc);
      [by intros i; apply Hwi|done|done|].
    rewrite <- (routeClass_environ w w1) in Hrc, Hc by done.
    rewrite (ensureIngress_keeps r cr w1 gvk i) by done. cbn.
    split_and!; try done. eexists. split; [done|].
    by apply Forall_cons_2; [|apply Forall_nil_2].
Qed.

(** ** The legacy class annotation *)

Lemma ensureIngress_keeps_metadata r cr w :
  routesUnderOwnKeys (cluster w) ->
  routesUnderOwnKeys (cluster (snd (ensureIngress r cr w)))
  ∧ ∀ k i, ingresses (cluster w) !! k = Some i ->
           ∃ i', ingresses (cluster (snd (ensureIngress r cr w))) !! k = Some i'
                 ∧ Ingress.Meta i' = Ingress.Meta i
                 ∧ IngressSpec.Rules (Ingress.Spec i') = IngressSpec.Rules (Ingress.Spec i).
Proof.
  intros Hwf. unfold ensureIngress. case_bool_decide; [by eauto|].
  set (class := os_Getenv _ w) in *. clearbody class.
  rewrite SetControllerReference_fresh by done.
  destruct (GVKForObject (scheme r)) as [e|gvk]; [by eauto|].
  destruct w as [cl env fs cs0]. unfold routesUnderOwnKeys, keyOf in *. cbn in Hwf.
  unfold Get, Create, Update, pop_fault, log, set_cluster, keyOf. cbn.
  repeat client_step; try (by eauto).
  all: unfold ObjectMeta.key in *; cbn in *.
  all: try match goal with
           | H : ingresses _ !! (_, _) = Some ?t, H' : context [Ingress.Meta ?t] |- _ =>
               rewrite (Hwf _ _ H) in *
           end.
  all: split; intros k i'; (destruct (decide (k =
         (ObjectMeta.Namespace (SimpleApp.Meta cr),
          ObjectMeta.Name (SimpleApp.Meta cr) +:+ "-ingress"))) as [->|Hne];
       [rewrite ?lookup_insert_eq|rewrite ?lookup_insert_ne by done]).
  all: try (by eauto).
  all: intros; simplify_eq; eauto.
  all: match goal with
       | H : ingresses _ !! _ = Some _ |- _ => by apply (Hwf _ _ H)
       end.
Qed.

Lemma laterPasses_keeps_metadata r cr passes w :
  routesUnderOwnKeys (cluster w) ->
  ∀ k i, ingresses (cluster w) !! k = Some i ->
         ∃ i', ingresses (cluster (laterPasses r cr passes w)) !! k = Some i'
               ∧ Ingress.Meta i' = Ingress.Meta i
               ∧ IngressSpec.Rules (Ingress.Spec i') = IngressSpec.Rules (Ingress.Spec i).
Proof.
  revert w. induction passes as [|[env fs] rest IH]; intros w Hwf k i Hi; cbn.
  { by exists i. }
  destruct (ensureIngress_keeps_metadata r cr (mkWorld (cluster w) env fs (calls w)) Hwf)
    as [Hwf' Hkeep].
  destruct (Hkeep k i Hi) as (i1 & Hi1 & Hm1 & Hr1).
  destruct (IH _ Hwf' k i1 Hi1) as (i2 & Hi2 & Hm2 & Hr2).
  exists i2. split; [done|]. split; congruence.
Qed.

Lemma withIngress_under_own_keys key i cl :
  routesUnderOwnKeys cl -> keyOf i = key -> routesUnderOwnKeys (withIngress key i cl).
Proof.
  intros Hwf Hk k i'. unfold withIngress. cbn.
  destruct (decide (k = key)) as [->|Hne].
  - rewrite lookup_insert_eq. by intros [= <-].
  - rewrite lookup_insert_ne by done. apply Hwf.
Qed.

(** C10. When the configured route class has changed, ensureIngress
    updates the stored route with the new class in spec.ingressClassName
    and with the metadata it read: the kubernetes.io/ingress.class
    annotation, which creation had set to the class of that time, keeps
    that value, so the two disagree. No later run of ensureIngress brings
    them together, whatever the configuration and whatever the API server
    answers: the annotation of the stored route stays as created. *)
Theorem legacy_annotation_never_resynchronised r cr w gvk existing c passes :
  registered r gvk ->
  faults w = [] ->
  routeClass w ≠ "" ->
  routesUnderOwnKeys (cluster w) ->
  ingresses (cluster w) !! ingressKey cr = Some existing ->
  IngressSpec.IngressClassName (Ingress.Spec existing) = Some c ->
  legacyClass existing = Some c ->
  c ≠ routeClass w ->
  let patched := setIngressClassName (Some (routeClass w)) existing in
  calls (snd (ensureIngress r cr w))
  = calls w ++ [CallGet KIngress (ingressKey cr); CallUpdate (AIngress patched)]
  ∧ ingresses (cluster (snd (ensureIngress r cr w))) !! ingressKey cr = Some patched
  ∧ IngressSpec.IngressClassName (Ingress.Spec patched) = Some (routeClass w)
  ∧ legacyClass patched = Some c
  ∧ Ingress.Meta patched = Ingress.Meta existing
  ∧ IngressSpec.Rules (Ingress.Spec patched) = IngressSpec.Rules (Ingress.Spec existing)
  ∧ (∃ i, ingresses (cluster (laterPasses r cr passes (snd (ensureIngress r cr w))))
            !! ingressKey cr = Some i
          ∧ legacyClass i = Some c)
  ∧ legacyClass (stamped cr gvk (Desired.ingress cr c)) = Some c
  ∧ IngressSpec.IngressClassName (Ingress.Spec (stamped cr gvk (Desired.ingress cr c)))
    = Some c.
Proof.
  intros Hs Hf Hrc Hwf Hex Hclass Hlegacy Hne patched.
  pose proof (Hwf _ _ Hex) as Hkey.
  rewrite (ensureIngress_patches r cr w gvk existing c) by done. cbn. fold patched.
  split; [done|]. split; [apply lookup_insert_eq|].
  split; [done|]. split; [done|]. split; [done|]. split; [done|].
  split; [|split; [apply lookup_singleton_eq|done]].
  destruct (laterPasses_keeps_metadata r cr passes
              (after [CallGet KIngress (ingressKey cr); CallUpdate (AIngress patched)]
                 (withIngress (ingressKey cr) patched (cluster w)) w))
    with (k := ingressKey cr) (i := patched) as (i & Hi & Hm & _).
  - by apply withIngress_under_own_keys.
  - apply lookup_insert_eq.
  - exists i. split; [done|]. unfold legacyClass in *. by rewrite Hm.
Qed.

(** ** The worked example *)

Lemma singleton_under_own_key `{Object T} (k : ObjectKey) (o : T) :
  keyOf o = k -> ∀ k' o', ({[ k := o ]} : gmap ObjectKey T) !! k' = Some o' -> keyOf o' = k'.
Proof. intros Hk k' o' Hl. by apply lookup_singleton_Some in Hl as [<- <-]. Qed.

Lemma empty_under_own_key `{Object T} :
  ∀ k' o', (∅ : gmap ObjectKey T) !! k' = Some o' -> keyOf o' = k'.
Proof. intros k' o' Hl. by rewrite lookup_empty in Hl. Qed.

Lemma create_then_converge_witness :
  fst (Reconcile Example.r Example.key (Example.world0 "a" ∅)) = Returns None.
Proof.
  apply (create_then_converge Example.r Example.key (Example.world0 "a" ∅)
           (Example.app "a") Example.gvk); reflexivity.
Defined.

Lemma ensure_twice_no_writes_witness :
  cluster (snd (runEnsure OpDeployment Example.r (Example.app "a")
                  (snd (runEnsure OpDeployment Example.r (Example.app "a")
                          Example.driftedWorld))))
  = cluster (snd (runEnsure OpDeployment Example.r (Example.app "a") Example.driftedWorld)).
Proof.
  apply (ensure_twice_no_writes OpDeployment Example.r (Example.app "a") Example.driftedWorld).
  - split_and!; [by apply singleton_under_own_key
                |by apply singleton_under_own_key
                |by apply empty_under_own_key].
  - vm_compute. reflexivity.
  - vm_compute. reflexivity.
Defined.

Lemma ensureDeployment_narrow_diff_witness :
  Deployment.Meta (patchDeployment (Example.app "a")
     (Container.mk "app" "nginx:latest" PullIfNotPresent [ContainerPort.mk 80]) []
     Example.driftedDeployment)
  = Deployment.Meta Example.driftedDeployment.
Proof.
  apply (ensureDeployment_narrow_diff Example.r (Example.app "a") Example.driftedWorld
           Example.gvk Example.driftedDeployment 5
           (Container.mk "app" "nginx:latest" PullIfNotPresent [ContainerPort.mk 80]) []);
    reflexivity.
Defined.

Lemma ensureService_port_diff_witness :
  ServiceSpec.Ports (Service.Spec (patchService (Example.app "a") Example.driftedService))
  = [ServicePort.mk 8080 (intstr.FromInt 80)].
Proof.
  apply (ensureService_port_diff Example.r (Example.app "a") Example.driftedWorld
           Example.gvk Example.driftedService
           (ServicePort.mk 9090 (intstr.FromInt 80)) []);
    reflexivity.
Defined.

Lemma ensureIngress_class_diff_witness :
  IngressSpec.Rules (Ingress.Spec
     (setIngressClassName (Some (routeClass (Example.routedWorld Example.traefikRoute)))
        Example.traefikRoute))
  = IngressSpec.Rules (Ingress.Spec Example.traefikRoute).
Proof.
  apply (ensureIngress_class_diff Example.r (Example.app "a")
           (Example.routedWorld Example.traefikRoute) Example.gvk Example.traefikRoute);
    try reflexivity.
  vm_compute. discriminate.
Defined.

(** C6 as stated fails on a route whose class is not set: the class
    differs from the configured "nginx", yet ensureIngress reads the route
    and returns it as stored, without any update. *)
Lemma ensureIngress_unset_class_not_patched :
  ¬ patchesWheneverClassDiffers Example.r (Example.app "a")
      (Example.routedWorld Example.unclassedRoute) Example.unclassedRoute
  ∧ ensureIngress Example.r (Example.app "a") (Example.routedWorld Example.unclassedRoute)
    = (Returns (Some Example.unclassedRoute, None),
       after [CallGet KIngress Example.routeKey]
         (cluster (Example.routedWorld Example.unclassedRoute))
         (Example.routedWorld Example.unclassedRoute)).
Proof.
  assert (Hrun : ensureIngress Example.r (Example.app "a")
                   (Example.routedWorld Example.unclassedRoute)
    = (Returns (Some Example.unclassedRoute, None),
       after [CallGet KIngress Example.routeKey]
         (cluster (Example.routedWorld Example.unclassedRoute))
         (Example.routedWorld Example.unclassedRoute))).
  { vm_compute. reflexivity. }
  split; [|exact Hrun].
  intros Hclaim. unfold patchesWheneverClassDiffers in Hclaim.
  rewrite Hrun in Hclaim. cbn in Hclaim.
  specialize (Hclaim ltac:(discriminate)).
  apply list_elem_of_singleton in Hclaim. discriminate.
Qed.

Lemma status_mirroring_witness :
  SimpleAppStatus.ReadyReplicas (SimpleApp.Status (Example.app "a")) = 0
  ∧ DeploymentStatus.ReadyReplicas (Deployment.Status Example.driftedDeployment) = 2
  ∧ simpleapps (cluster (snd (Reconcile Example.r Example.key Example.driftedWorld)))
      !! Example.key
    = Some (SimpleApp.mk (SimpleApp.Meta (Example.app "a")) (SimpleApp.Spec (Example.app "a"))
              (SimpleAppStatus.mk 2 "")).
Proof.
  split; [reflexivity|]. split; [reflexivity|].
  edestruct (status_mirroring Example.r Example.key Example.driftedWorld (Example.app "a"))
    as (_ & Hwrite & _).
  - reflexivity.
  - vm_compute. reflexivity.
  - vm_compute. reflexivity.
  - vm_compute. reflexivity.
  - vm_compute. reflexivity.
  - destruct Hwrite as (_ & _ & _ & _ & Hstored); [discriminate|].
    apply Hstored. vm_compute. reflexivity.
Defined.

Lemma legacy_annotation_never_resynchronised_witness :
  legacyClass (setIngressClassName
     (Some (routeClass (Example.routedWorld Example.traefikRoute))) Example.traefikRoute)
  = Some "traefik".
Proof.
  apply (legacy_annotation_never_resynchronised Example.r (Example.app "a")
           (Example.routedWorld Example.traefikRoute) Example.gvk
           Example.traefikRoute "traefik"
           [(∅, []); (Example.nginxEnv, [Some ErrConflict])]);
    try reflexivity.
  - vm_compute. discriminate.
  - exact (singleton_under_own_key (T := Ingress.t)
             Example.routeKey Example.traefikRoute eq_refl).
  - vm_compute. discriminate.
Defined.

(** * Further properties of the reconciler *)

(** ** The calls of one ensure operation *)

Lemma ensureDeployment_calls r cr w :
  ∃ cs, calls (snd (ensureDeployment r cr w)) = calls w ++ cs
        ∧ readThenOneWrite KDeployment (appKey cr) cs.
Proof.
  unfold ensureDeployment. rewrite SetControllerReference_fresh by done.
  destruct (GVKForObject (scheme r)) as [e|gvk].
  { exists []. cbn. split; [by rewrite app_nil_r|by left]. }
  destruct w as [cl env fs cs0]. unfold readThenOneWrite.
  run_client; eexists; cbn; rewrite <- ?app_assoc; cbn; (split; [reflexivity|]); eauto 6.
Qed.

Lemma ensureService_calls r cr w :
  ∃ cs, calls (snd (ensureService r cr w)) = calls w ++ cs
        ∧ readThenOneWrite KService (appKey cr) cs.
Proof.
  unfold ensureService. rewrite SetControllerReference_fresh by done.
  destruct (GVKForObject (scheme r)) as [e|gvk].
  { exists []. cbn. split; [by rewrite app_nil_r|by left]. }
  destruct w as [cl env fs cs0]. unfold readThenOneWrite.
  run_client; eexists; cbn; rewrite <- ?app_assoc; cbn; (split; [reflexivity|]); eauto 6.
Qed.

Lemma ensureIngress_calls r cr w :
  ∃ cs, calls (snd (ensureIngress r cr w)) = calls w ++ cs
        ∧ readThenOneWrite KIngress (ingressKey cr) cs.
Proof.
  unfold ensureIngress. case_bool_decide.
  { exists []. cbn. split; [by rewrite app_nil_r|by left]. }
  rewrite SetControllerReference_fresh by done.
  destruct (GVKForObject (scheme r)) as [e|gvk].
  { exists []. cbn. split; [by rewrite app_nil_r|by left]. }
  destruct w as [cl env fs cs0]. unfold readThenOneWrite.
  run_client; eexists; cbn; rewrite <- ?app_assoc; cbn; (split; [reflexivity|]); eauto 6.
Qed.

(** X1. Whatever the API server answers, an ensure operation makes no call
    at all, or reads the object of its kind under the key derived from
    the declaration and then makes at most one write, a create or an
    update of that kind: never a write without the read before it, never
    two writes. *)
Theorem ensure_reads_then_writes_once op r cr w :
  ∃ cs, calls (snd (runEnsure op r cr w)) = calls w ++ cs
        ∧ readThenOneWrite (opKind op) (opKey op cr) cs.
Proof.
  destruct op; cbn.
  - apply ensureDeployment_calls.
  - apply ensureService_calls.
  - apply ensureIngress_calls.
Qed.

(** ** The effect of one ensure operation on the store *)

Lemma ensureDeployment_effect r cr w :
  deployments (cluster (snd (ensureDeployment r cr w))) = deployments (cluster w)
  ∨ (∃ d, fst (ensureDeployment r cr w) = Returns (Some d, None)
          ∧ deployments (cluster w) !! appKey cr = None
          ∧ keyOf d = appKey cr
          ∧ deployments (cluster (snd (ensureDeployment r cr w)))
            = <[appKey cr := d]> (deployments (cluster w)))
  ∨ (∃ old d, fst (ensureDeployment r cr w) = Returns (Some d, None)
              ∧ deployments (cluster w) !! appKey cr = Some old
              ∧ is_Some (deployments (cluster w) !! keyOf old)
              ∧ keyOf d = keyOf old
              ∧ deployments (cluster (snd (ensureDeployment r cr w)))
                = <[keyOf old := d]> (deployments (cluster w))).
Proof.
  unfold ensureDeployment. rewrite SetControllerReference_fresh by done.
  destruct (GVKForObject (scheme r)) as [e|gvk]; [by left|].
  destruct w as [cl env fs cs0]. unfold appKey.
  run_client; try (by left).
  all: try (right; left; eexists; split_and!; [reflexivity|done|reflexivity|reflexivity]).
  all: right; right; eexists _, _; split_and!; [reflexivity|eassumption|eauto|reflexivity|reflexivity].
Qed.

Lemma ensureService_effect r cr w :
  services (cluster (snd (ensureService r cr w))) = services (cluster w)
  ∨ (∃ s, fst (ensureService r cr w) = Returns (Some s, None)
          ∧ services (cluster w) !! appKey cr = None
          ∧ keyOf s = appKey cr
          ∧ services (cluster (snd (ensureService r cr w)))
            = <[appKey cr := s]> (services (cluster w)))
  ∨ (∃ old s, fst (ensureService r cr w) = Returns (Some s, None)
              ∧ services (cluster w) !! appKey cr = Some old
              ∧ is_Some (services (cluster w) !! keyOf old)
              ∧ keyOf s = keyOf old
              ∧ services (cluster (snd (ensureService r cr w)))
                = <[keyOf old := s]> (services (cluster w))).
Proof.
  unfold ensureService. rewrite SetControllerReference_fresh by done.
  destruct (GVKForObject (scheme r)) as [e|gvk]; [by left|].
  destruct w as [cl env fs cs0]. unfold appKey.
  run_client; try (by left).
  all: try (right; left; eexists; split_and!; [reflexivity|done|reflexivity|reflexivity]).
  all: right; right; eexists _, _; split_and!; [reflexivity|eassumption|eauto|reflexivity|reflexivity].
Qed.

Lemma ensureIngress_effect r cr w :
  ingresses (cluster (snd (ensureIngress r cr w))) = ingresses (cluster w)
  ∨ (∃ i, fst (ensureIngress r cr w) = Returns (Some i, None)
          ∧ ingresses (cluster w) !! ingressKey cr = None
          ∧ keyOf i = ingressKey cr
          ∧ ingresses (cluster (snd (ensureIngress r cr w)))
            = <[ingressKey cr := i]> (ingresses (cluster w)))
  ∨ (∃ old i, fst (ensureIngress r cr w) = Returns (Some i, None)
              ∧ ingresses (cluster w) !! ingressKey cr = Some old
              ∧ is_Some (ingresses (cluster w) !! keyOf old)
              ∧ keyOf i = keyOf old
              ∧ ingresses (cluster (snd (ensureIngress r cr w)))
                = <[keyOf old := i]> (ingresses (cluster w))).
Proof.
  unfold ensureIngress. case_bool_decide; [by left|].
  rewrite SetControllerReference_fresh by done.
  destruct (GVKForObject (scheme r)) as [e|gvk]; [by left|].
  destruct w as [cl env fs cs0]. unfold ingressKey.
  run_client; try (by left).
  all: try (right; left; eexists; split_and!; [reflexivity|done|reflexivity|reflexivity]).
  all: right; right; eexists _, _; split_and!; [reflexivity|eassumption|eauto|reflexivity|reflexivity].
Qed.

Lemma cluster_eq (c c' : Cluster) :
  simpleapps c' = simpleapps c -> deployments c' = deployments c ->
  services c' = services c -> ingresses c' = ingresses c -> c' = c.
Proof. destruct c, c'. cbn. by intros -> -> -> ->. Qed.

(** X2. An ensure operation that does not return a nil error (it returns
    an error, or panics) has changed no stored object, whatever the API
    server answered: there is nothing to roll back after a failed
    operation. *)
Theorem failed_ensure_changes_nothing op r cr w :
  fst (runEnsure op r cr w) ≠ Returns None ->
  cluster (snd (runEnsure op r cr w)) = cluster w.
Proof.
  destruct op; cbn; intros Hfail.
  - destruct (ensureDeployment_summary r cr w) as (_ & _ & _ & Ha & Hs & Hi & _).
    apply cluster_eq; try done.
    destruct (ensureDeployment_effect r cr w)
      as [Hd|[(d & Hr & _)|(old & d & Hr & _)]]; [done| |];
      rewrite Hr in Hfail; by destruct Hfail.
  - destruct (ensureService_summary r cr w) as (_ & _ & _ & Ha & Hd & Hi & _).
    apply cluster_eq; try done.
    destruct (ensureService_effect r cr w)
      as [Hs|[(s & Hr & _)|(old & s & Hr & _)]]; [done| |];
      rewrite Hr in Hfail; by destruct Hfail.
  - destruct (ensureIngress_summary r cr w) as (_ & _ & _ & Ha & Hd & Hs & _).
    apply cluster_eq; try done.
    destruct (ensureIngress_effect r cr w)
      as [Hi|[(i & Hr & _)|(old & i & Hr & _)]]; [done| |];
      rewrite Hr in Hfail; by destruct Hfail.
Qed.

(** ** What a whole pass does to the store *)

(** A relation between stores that every step of a pass establishes holds
    between the stores before and after the pass. *)
Lemma Reconcile_cluster_relation (R : SimpleApp.t -> Cluster -> Cluster -> Prop) r req w :
  (∀ app c, R app c c) ->
  (∀ app c1 c2 c3, R app c1 c2 -> R app c2 c3 -> R app c1 c3) ->
  (∀ app w, R app (cluster w) (cluster (snd (ensureDeployment r app w)))) ->
  (∀ app w, R app (cluster w) (cluster (snd (ensureService r app w)))) ->
  (∀ app w, R app (cluster w) (cluster (snd (ensureIngress r app w)))) ->
  (∀ app n w, R app (cluster w) (cluster (snd (StatusUpdate (setReadyReplicas n app) w)))) ->
  cluster (snd (Reconcile r req w)) = cluster w
  ∨ ∃ app, simpleapps (cluster w) !! req = Some app
           ∧ R app (cluster w) (cluster (snd (Reconcile r req w))).
Proof.
  intros Hrefl Htrans HD HS HI HU. unfold Reconcile.
  pose proof (Get_simpleapp_summary req w) as (_ & _ & HGcl & HGapp).
  destruct (Get req w) as [[e|app] w0]; cbn in *; [by left|].
  right. exists app. split; [by apply HGapp|]. rewrite <- HGcl.
  specialize (HD app w0).
  destruct (ensureDeployment r app w0) as [o1 w1]; cbn in *.
  destruct o1 as [[d [e1|]]|]; [done| |done].
  specialize (HS app w1).
  destruct (ensureService r app w1) as [o2 w2]; cbn in *.
  assert (H2 : R app (cluster w0) (cluster w2)) by eauto.
  destruct o2 as [[s [e2|]]|]; [done| |done].
  specialize (HI app w2).
  destruct (ensureIngress r app w2) as [o3 w3]; cbn in *.
  assert (H3 : R app (cluster w0) (cluster w3)) by eauto.
  destruct o3 as [[i [e3|]]|]; [done| |done].
  destruct d as [d|]; [|done].
  case_bool_decide; cbn; [done|].
  specialize (HU app (DeploymentStatus.ReadyReplicas (Deployment.Status d)) w3).
  destruct (StatusUpdate _ w3) as [serr w4]; cbn in *.
  assert (H4 : R app (cluster w0) (cluster w4)) by eauto.
  by destruct serr.
Qed.

Lemma insert_keeps_keys `{Countable K} {A} (m : gmap K A) (k k' : K) (x : A) :
  is_Some (m !! k') -> is_Some (<[k := x]> m !! k').
Proof.
  intros Hk. destruct (decide (k = k')) as [->|Hne].
  - rewrite lookup_insert_eq. eauto.
  - by rewrite lookup_insert_ne.
Qed.

Lemma keepsKeys_refl c : keepsKeys c c.
Proof. by repeat split. Qed.

Lemma keepsKeys_trans c1 c2 c3 : keepsKeys c1 c2 -> keepsKeys c2 c3 -> keepsKeys c1 c3.
Proof.
  intros (Ha & Hd & Hs & Hi) (Ha' & Hd' & Hs' & Hi'). repeat split; eauto.
Qed.

Lemma ensureDeployment_keepsKeys r cr w :
  keepsKeys (cluster w) (cluster (snd (ensureDeployment r cr w))).
Proof.
  destruct (ensureDeployment_summary r cr w) as (_ & _ & _ & Ha & Hs & Hi & _).
  unfold keepsKeys. rewrite Ha, Hs, Hi. split_and!; try done.
  destruct (ensureDeployment_effect r cr w)
    as [->|[(d & _ & _ & _ & ->)|(old & d & _ & _ & _ & _ & ->)]];
    [done|intros k; apply insert_keeps_keys..].
Qed.

Lemma ensureService_keepsKeys r cr w :
  keepsKeys (cluster w) (cluster (snd (ensureService r cr w))).
Proof.
  destruct (ensureService_summary r cr w) as (_ & _ & _ & Ha & Hd & Hi & _).
  unfold keepsKeys. rewrite Ha, Hd, Hi. split_and!; try done.
  destruct (ensureService_effect r cr w)
    as [->|[(s & _ & _ & _ & ->)|(old & s & _ & _ & _ & _ & ->)]];
    [done|intros k; apply insert_keeps_keys..].
Qed.

Lemma ensureIngress_keepsKeys r cr w :
  keepsKeys (cluster w) (cluster (snd (ensureIngress r cr w))).
Proof.
  destruct (ensureIngress_summary r cr w) as (_ & _ & _ & Ha & Hd & Hs & _).
  unfold keepsKeys. rewrite Ha, Hd, Hs. split_and!; try done.
  destruct (ensureIngress_effect r cr w)
    as [->|[(i & _ & _ & _ & ->)|(old & i & _ & _ & _ & _ & ->)]];
    [done|intros k; apply insert_keeps_keys..].
Qed.

Lemma StatusUpdate_keepsKeys obj w :
  keepsKeys (cluster w) (cluster (snd (StatusUpdate obj w))).
Proof.
  destruct (StatusUpdate_summary obj w) as (_ & _ & Hd & Hs & Hi & Ha).
  unfold keepsKeys. rewrite Hd, Hs, Hi. split_and!; try done.
  destruct Ha as [->|(old & _ & _ & ->)]; [done|].
  intros k. apply insert_keeps_keys.
Qed.

(** X3. A pass never removes an object: every key that held a declaration,
    workload, endpoint or route before the pass still holds one after
    it, whatever the API server answers and whatever the configuration.
    In particular a route created earlier survives the removal of the
    route class. *)
Theorem Reconcile_never_removes r req w :
  keepsKeys (cluster w) (cluster (snd (Reconcile r req w))).
Proof.
  destruct (Reconcile_cluster_relation (λ _, keepsKeys) r req w
              (λ _, keepsKeys_refl) (λ _, keepsKeys_trans)
              (ensureDeployment_keepsKeys r) (ensureService_keepsKeys r)
              (ensureIngress_keepsKeys r)
              (λ app n, StatusUpdate_keepsKeys (setReadyReplicas n app)))
    as [->|(app & _ & Hk)]; [apply keepsKeys_refl|done].
Qed.

Lemma staysLocal_refl app c : staysLocal app c c.
Proof. intros Hwf. split; [done|]. unfold differsOnlyFor. by split_and!. Qed.

Lemma staysLocal_trans app c1 c2 c3 :
  staysLocal app c1 c2 -> staysLocal app c2 c3 -> staysLocal app c1 c3.
Proof.
  intros H12 H23 Hwf. destruct (H12 Hwf) as (Hwf2 & Ha & Hd & Hs & Hi).
  destruct (H23 Hwf2) as (Hwf3 & Ha' & Hd' & Hs' & Hi').
  split; [done|]. unfold differsOnlyFor.
  split_and!; intros k Hk.
  - by rewrite Ha', Ha.
  - by rewrite Hd', Hd.
  - by rewrite Hs', Hs.
  - by rewrite Hi', Hi.
Qed.

Lemma insert_under_own_key `{Object T} (m : gmap ObjectKey T) k (o : T) :
  keyOf o = k -> (∀ k' o', m !! k' = Some o' -> keyOf o' = k') ->
  ∀ k' o', <[k := o]> m !! k' = Some o' -> keyOf o' = k'.
Proof.
  intros Hk Hwf k' o'. destruct (decide (k = k')) as [->|Hne].
  - rewrite lookup_insert_eq. by intros [= <-].
  - rewrite lookup_insert_ne by done. apply Hwf.
Qed.

Lemma ensureDeployment_staysLocal r cr w :
  staysLocal cr (cluster w) (cluster (snd (ensureDeployment r cr w))).
Proof.
  intros (Hwd & Hws & Hwi).
  destruct (ensureDeployment_summary r cr w) as (_ & _ & _ & Ha & Hs & Hi & _).
  unfold storedUnderOwnKeys, differsOnlyFor. rewrite Ha, Hs, Hi.
  destruct (ensureDeployment_effect r cr w)
    as [->|[(d & _ & _ & Hk & ->)|(old & d & _ & Hold & _ & Hk & ->)]].
  - by split_and!.
  - split_and!; try done.
    + by apply insert_under_own_key.
    + intros k Hne. by rewrite lookup_insert_ne.
  - rewrite (Hwd _ _ Hold) in *. split_and!; try done.
    + by apply insert_under_own_key.
    + intros k Hne. by rewrite lookup_insert_ne.
Qed.

Lemma ensureService_staysLocal r cr w :
  staysLocal cr (cluster w) (cluster (snd (ensureService r cr w))).
Proof.
  intros (Hwd & Hws & Hwi).
  destruct (ensureService_summary r cr w) as (_ & _ & _ & Ha & Hd & Hi & _).
  unfold storedUnderOwnKeys, differsOnlyFor. rewrite Ha, Hd, Hi.
  destruct (ensureService_effect r cr w)
    as [->|[(s & _ & _ & Hk & ->)|(old & s & _ & Hold & _ & Hk & ->)]].
  - by split_and!.
  - split_and!; try done.
    + by apply insert_under_own_key.
    + intros k Hne. by rewrite lookup_insert_ne.
  - rewrite (Hws _ _ Hold) in *. split_and!; try done.
    + by apply insert_under_own_key.
    + intros k Hne. by rewrite lookup_insert_ne.
Qed.

Lemma ensureIngress_staysLocal r cr w :
  staysLocal cr (cluster w) (cluster (snd (ensureIngress r cr w))).
Proof.
  intros (Hwd & Hws & Hwi).
  destruct (ensureIngress_summary r cr w) as (_ & _ & _ & Ha & Hd & Hs & _).
  unfold storedUnderOwnKeys, differsOnlyFor. rewrite Ha, Hd, Hs.
  destruct (ensureIngress_effect r cr w)
    as [->|[(i & _ & _ & Hk & ->)|(old & i & _ & Hold & _ & Hk & ->)]].
  - by split_and!.
  - split_and!; try done.
    + by apply insert_under_own_key.
    + intros k Hne. by rewrite lookup_insert_ne.
  - rewrite (Hwi _ _ Hold) in *. split_and!; try done.
    + by apply insert_under_own_key.
    + intros k Hne. by rewrite lookup_insert_ne.
Qed.

Lemma StatusUpdate_staysLocal app n w :
  staysLocal app (cluster w) (cluster (snd (StatusUpdate (setReadyReplicas n app) w))).
Proof.
  intros Hwf.
  destruct (StatusUpdate_summary (setReadyReplicas n app) w) as (_ & _ & Hd & Hs & Hi & Ha).
  unfold storedUnderOwnKeys, differsOnlyFor in *. rewrite Hd, Hs, Hi.
  split_and!; try done; try (by apply Hwf).
  destruct Ha as [->|(old & _ & _ & ->)]; [done|].
  intros k Hne. by rewrite lookup_insert_ne.
Qed.

Lemma Reconcile_staysLocal r req w :
  cluster (snd (Reconcile r req w)) = cluster w
  ∨ ∃ app, simpleapps (cluster w) !! req = Some app
           ∧ staysLocal app (cluster w) (cluster (snd (Reconcile r req w))).
Proof.
  exact (Reconcile_cluster_relation staysLocal r req w
           staysLocal_refl staysLocal_trans
           (ensureDeployment_staysLocal r) (ensureService_staysLocal r)
           (ensureIngress_staysLocal r) StatusUpdate_staysLocal).
Qed.

(** X4. Isolation between declarations. In a cluster that keeps its
    dependents under their own keys, a pass for one declaration changes
    nothing, or changes at most the status of that declaration, the
    workload and the endpoint stored under its namespace and name, and
    the route stored under <name>-ingress. Every object under another key
    is left exactly as it was, whatever the API server answers. *)
Theorem Reconcile_touches_only_own_objects r req w :
  storedUnderOwnKeys (cluster w) ->
  cluster (snd (Reconcile r req w)) = cluster w
  ∨ ∃ app, simpleapps (cluster w) !! req = Some app
           ∧ differsOnlyFor app (cluster w) (cluster (snd (Reconcile r req w))).
Proof.
  intros Hwf. destruct (Reconcile_staysLocal r req w) as [Hc|(app & Happ & Hloc)];
    [by left|].
  right. exists app. split; [done|]. by apply Hloc.
Qed.

(** ** What a successful pass leaves behind *)

Lemma ensureDeployment_success r cr w o w1 :
  (∀ d, deployments (cluster w) !! appKey cr = Some d -> keyOf d = appKey cr) ->
  ensureDeployment r cr w = (Returns (o, None), w1) ->
  ∃ gvk d, registered r gvk ∧ o = Some d
           ∧ deployments (cluster w1) !! appKey cr = Some d
           ∧ workloadConverged cr d.
Proof.
  intros Hwf. unfold ensureDeployment. rewrite SetControllerReference_fresh by done.
  destruct (GVKForObject (scheme r)) as [e|gvk] eqn:Hgvk; [done|].
  apply GVKForObject_inr in Hgvk.
  destruct w as [cl env fs cs0].
  unfold appKey, ObjectMeta.key, keyOf, workloadConverged in *. cbn in Hwf.
  unfold Get, Create, Update, pop_fault, log, set_cluster, keyOf. cbn.
  repeat client_step; intros [= <- <-]; cbn.
  all: exists gvk; unfold ObjectMeta.key in *; cbn in *.
  all: try match goal with
           | H : deployments _ !! _ = Some _ |- _ => rewrite (Hwf _ H) in *
           end.
  all: rewrite ?lookup_insert_eq.
  all: eexists; split; [done|]; split; [reflexivity|]; split; [eassumption || reflexivity|].
  all: cbn; repeat case_bool_decide; simplify_eq.
  all: split; [by rewrite ?bool_decide_eq_true_2|]; eauto.
Qed.

Lemma ensureService_success r cr w o w1 :
  (∀ s, services (cluster w) !! appKey cr = Some s -> keyOf s = appKey cr) ->
  ensureService r cr w = (Returns (o, None), w1) ->
  ∃ gvk s, registered r gvk ∧ o = Some s
           ∧ services (cluster w1) !! appKey cr = Some s
           ∧ endpointConverged cr s.
Proof.
  intros Hwf. unfold ensureService. rewrite SetControllerReference_fresh by done.
  destruct (GVKForObject (scheme r)) as [e|gvk] eqn:Hgvk; [done|].
  apply GVKForObject_inr in Hgvk.
  destruct w as [cl env fs cs0].
  unfold appKey, ObjectMeta.key, keyOf, endpointConverged in *. cbn in Hwf.
  unfold Get, Create, Update, pop_fault, log, set_cluster, keyOf. cbn.
  repeat client_step; intros [= <- <-]; cbn.
  all: exists gvk; unfold ObjectMeta.key in *; cbn in *.
  all: try match goal with
           | H : services _ !! _ = Some _ |- _ => rewrite (Hwf _ H) in *
           end.
  all: rewrite ?lookup_insert_eq.
  all: eexists; split; [done|]; split; [reflexivity|]; split; [eassumption || reflexivity|].
  all: cbn; eexists _, _; split; [eassumption || reflexivity|].
  all: repeat case_bool_decide; simplify_eq; done.
Qed.

Lemma ensureIngress_success r cr w o w1 :
  (∀ i, ingresses (cluster w) !! ingressKey cr = Some i -> keyOf i = ingressKey cr) ->
  routeClass w ≠ "" ->
  ensureIngress r cr w = (Returns (o, None), w1) ->
  ∃ gvk i, registered r gvk ∧ o = Some i
           ∧ ingresses (cluster w1) !! ingressKey cr = Some i
           ∧ (IngressSpec.IngressClassName (Ingress.Spec i) = Some (routeClass w)
              ∨ IngressSpec.IngressClassName (Ingress.Spec i) = None).
Proof.
  intros Hwf Hrc. unfold ensureIngress. fold (routeClass w).
  rewrite bool_decide_eq_false_2 by done.
  set (class := routeClass w) in *. clearbody class.
  rewrite SetControllerReference_fresh by done.
  destruct (GVKForObject (scheme r)) as [e|gvk] eqn:Hgvk; [done|].
  apply GVKForObject_inr in Hgvk.
  destruct w as [cl env fs cs0]. unfold ingressKey, ObjectMeta.key, keyOf in *. cbn in Hwf.
  unfold Get, Create, Update, pop_fault, log, set_cluster, keyOf. cbn.
  repeat client_step; intros [= <- <-]; cbn.
  all: exists gvk; unfold ObjectMeta.key in *; cbn in *.
  all: try match goal with
           | H : ingresses _ !! _ = Some _ |- _ => rewrite (Hwf _ H) in *
           end.
  all: rewrite ?lookup_insert_eq.
  all: eexists; split; [done|]; split; [reflexivity|]; split; [eassumption || reflexivity|].
  all: cbn; repeat case_bool_decide; simplify_eq; eauto.
Qed.

(** The stages of a pass that fetched [app] and returned a nil error. *)
Lemma Reconcile_success_stages r req w app :
  fst (Get (T := SimpleApp.t) req w) = inr app ->
  fst (Reconcile r req w) = Returns None ->
  ∃ d w1 s w2 i w3,
    ensureDeployment r app (snd (Get (T := SimpleApp.t) req w)) = (Returns (Some d, None), w1)
    ∧ ensureService r app w1 = (Returns (s, None), w2)
    ∧ ensureIngress r app w2 = (Returns (i, None), w3)
    ∧ ((SimpleAppStatus.ReadyReplicas (SimpleApp.Status app)
        = DeploymentStatus.ReadyReplicas (Deployment.Status d)
        ∧ snd (Reconcile r req w) = w3)
       ∨ (SimpleAppStatus.ReadyReplicas (SimpleApp.Status app)
          ≠ DeploymentStatus.ReadyReplicas (Deployment.Status d)
          ∧ StatusUpdate
              (setReadyReplicas (DeploymentStatus.ReadyReplicas (Deployment.Status d)) app) w3
            = (None, snd (Reconcile r req w)))).
Proof.
  unfold Reconcile. destruct (Get req w) as [[e|app'] w0]; cbn; [done|].
  intros [= ->].
  destruct (ensureDeployment r app w0) as [[[d [e1|]]|] w1]; cbn; try done.
  destruct (ensureService r app w1) as [[[s [e2|]]|] w2] eqn:H2; cbn; try done.
  destruct (ensureIngress r app w2) as [[[i [e3|]]|] w3] eqn:H3; cbn; try done.
  destruct d as [d|]; cbn; [|done].
  case_bool_decide; cbn.
  - intros _. exists d, w1, s, w2, i, w3. do 3 (split; [done|]). by left.
  - destruct (StatusUpdate _ w3) as [[e4|] w4] eqn:Hst; cbn; [done|].
    intros _. exists d, w1, s, w2, i, w3. do 3 (split; [done|]). right. by split.
Qed.

Lemma StatusUpdate_accepted obj w w' :
  StatusUpdate obj w = (None, w') ->
  ∃ old, simpleapps (cluster w) !! keyOf obj = Some old
         ∧ simpleapps (cluster w') = <[keyOf obj := withStatusOf obj old]> (simpleapps (cluster w))
         ∧ deployments (cluster w') = deployments (cluster w)
         ∧ services (cluster w') = services (cluster w)
         ∧ ingresses (cluster w') = ingresses (cluster w)
         ∧ environ w' = environ w
         ∧ calls w' = calls w ++ [CallStatusUpdate (ASimpleApp obj)].
Proof.
  destruct w as [cl env fs cs0]. unfold StatusUpdate, pop_fault, log, set_cluster. cbn.
  repeat client_step; intros [= <-]; cbn; eauto 10.
Qed.

(** The state a pass that fetched [app] and returned nil leaves for [app]. *)
Lemma Reconcile_success_state r req w app :
  storedUnderOwnKeys (cluster w) ->
  keyOf app = req ->
  fst (Get (T := SimpleApp.t) req w) = inr app ->
  fst (Reconcile r req w) = Returns None ->
  ∃ gvk d s a,
    registered r gvk
    ∧ deployments (cluster (snd (Reconcile r req w))) !! req = Some d
    ∧ workloadConverged app d
    ∧ services (cluster (snd (Reconcile r req w))) !! req = Some s
    ∧ endpointConverged app s
    ∧ (routeClass w ≠ "" ->
       ∃ i, ingresses (cluster (snd (Reconcile r req w))) !! ingressKey app = Some i
            ∧ (IngressSpec.IngressClassName (Ingress.Spec i) = Some (routeClass w)
               ∨ IngressSpec.IngressClassName (Ingress.Spec i) = None))
    ∧ simpleapps (cluster (snd (Reconcile r req w))) !! req = Some a
    ∧ SimpleApp.Meta a = SimpleApp.Meta app
    ∧ SimpleApp.Spec a = SimpleApp.Spec app
    ∧ SimpleAppStatus.ServiceStatus (SimpleApp.Status a)
      = SimpleAppStatus.ServiceStatus (SimpleApp.Status app)
    ∧ SimpleAppStatus.ReadyReplicas (SimpleApp.Status a)
      = DeploymentStatus.ReadyReplicas (Deployment.Status d)
    ∧ environ (snd (Reconcile r req w)) = environ w.
Proof.
  intros Hwf Hkey HG Hok.
  assert (Hk : appKey app = req) by done.
  destruct (Reconcile_success_stages r req w app HG Hok)
    as (d & w1 & s & w2 & i & w3 & H1 & H2 & H3 & Hst).
  pose proof (Get_simpleapp_summary req w) as (_ & HGe & HGcl & HGapp).
  specialize (HGapp app HG).
  set (w0 := snd (Get req w)) in *.
  assert (Hwf0 : storedUnderOwnKeys (cluster w0)) by (by rewrite HGcl).
  (* workload *)
  pose proof (ensureDeployment_summary r app w0) as (_ & _ & He1 & Ha1 & Hs1 & Hi1 & _).
  pose proof (ensureDeployment_staysLocal r app w0 Hwf0) as [Hwf1 _].
  destruct (ensureDeployment_success r app w0 (Some d) w1) as (gvk & d' & Hreg & [= <-] & Hd1 & Hconv1);
    [intros ?; apply Hwf0|done|].
  rewrite H1 in *. cbn in *.
  (* endpoint *)
  pose proof (ensureService_summary r app w1) as (_ & _ & He2 & Ha2 & Hd2 & Hi2 & _).
  pose proof (ensureService_staysLocal r app w1 Hwf1) as [Hwf2 _].
  destruct (ensureService_success r app w1 s w2) as (_ & s' & _ & -> & Hs2 & Hconv2);
    [intros ?; apply Hwf1|done|].
  rewrite H2 in *. cbn in *.
  (* route *)
  pose proof (ensureIngress_summary r app w2) as (_ & _ & He3 & Ha3 & Hd3 & Hs3 & _).
  assert (Hroute : routeClass w ≠ "" ->
    ∃ i', ingresses (cluster w3) !! ingressKey app = Some i'
          ∧ (IngressSpec.IngressClassName (Ingress.Spec i') = Some (routeClass w)
             ∨ IngressSpec.IngressClassName (Ingress.Spec i') = None)).
  { intros Hrc.
    assert (Hrc2 : routeClass w2 = routeClass w).
    { apply routeClass_environ. congruence. }
    destruct (ensureIngress_success r app w2 i w3) as (_ & i' & _ & _ & Hi3 & Hcl);
      [intros ?; apply Hwf2|congruence|done|].
    exists i'. split; [done|]. by rewrite <- Hrc2. }
  rewrite H3 in *. cbn in *.
  assert (Hd : deployments (cluster w3) !! req = Some d) by (rewrite Hd3, Hd2, <- Hk; done).
  assert (Hs : services (cluster w3) !! req = Some s') by (rewrite Hs3, <- Hk; done).
  assert (Ha : simpleapps (cluster w3) !! req = Some app)
    by (rewrite Ha3, Ha2, Ha1, HGcl; done).
  assert (He : environ w3 = environ w) by congruence.
  exists gvk, d, s'.
  destruct Hst as [[Heq ->]|[Hne Hup]].
  - exists app. by split_and!.
  - destruct (StatusUpdate_accepted _ _ _ Hup) as (old & Hold & Ha' & Hd' & Hs' & Hi' & He' & _).
    change (keyOf (setReadyReplicas _ app)) with (keyOf app) in *.
    rewrite Hkey in *. rewrite Ha in Hold. injection Hold as <-.
    eexists. rewrite Ha', Hd', Hs', Hi', He', lookup_insert_eq. by split_and!.
Qed.

(** X6. Postcondition of a successful pass. If a pass fetched the
    declaration and returned a nil error, in a cluster that kept its
    dependents under their own keys, then afterwards a workload is stored
    under the declaration's key with the declared replica count and image
    (first container), an endpoint is stored there whose first port maps
    servicePort to containerPort, with a route class configured a route
    is stored under <name>-ingress whose class is the configured one or
    unset, and the stored declaration has the same metadata, spec and
    serviceStatus as fetched and the readyReplicas of that workload. *)
Theorem Reconcile_success_converged r req w app :
  storedUnderOwnKeys (cluster w) ->
  keyOf app = req ->
  fst (Get (T := SimpleApp.t) req w) = inr app ->
  fst (Reconcile r req w) = Returns None ->
  ∃ d s a,
    deployments (cluster (snd (Reconcile r req w))) !! req = Some d
    ∧ workloadConverged app d
    ∧ services (cluster (snd (Reconcile r req w))) !! req = Some s
    ∧ endpointConverged app s
    ∧ (routeClass w ≠ "" ->
       ∃ i, ingresses (cluster (snd (Reconcile r req w))) !! ingressKey app = Some i
            ∧ (IngressSpec.IngressClassName (Ingress.Spec i) = Some (routeClass w)
               ∨ IngressSpec.IngressClassName (Ingress.Spec i) = None))
    ∧ simpleapps (cluster (snd (Reconcile r req w))) !! req = Some a
    ∧ SimpleApp.Meta a = SimpleApp.Meta app
    ∧ SimpleApp.Spec a = SimpleApp.Spec app
    ∧ SimpleAppStatus.ServiceStatus (SimpleApp.Status a)
      = SimpleAppStatus.ServiceStatus (SimpleApp.Status app)
    ∧ SimpleAppStatus.ReadyReplicas (SimpleApp.Status a)
      = DeploymentStatus.ReadyReplicas (Deployment.Status d).
Proof.
  intros Hwf Hkey HG Hok.
  destruct (Reconcile_success_state r req w app Hwf Hkey HG Hok)
    as (gvk & d & s & a & _ & H).
  exists d, s, a. by destruct_and!.
Qed.

(** X7. A pass is idempotent. After a pass that fetched the declaration
    and returned a nil error, a second pass for the same key in the world
    it left (same environment, the API server answering) returns nil
    again, makes only reads (the declaration, the workload, the endpoint
    and, with a route class configured, the route) and leaves every
    stored object as it is: no create, no update, no status write. *)
Theorem Reconcile_twice_no_writes r req w app :
  storedUnderOwnKeys (cluster w) ->
  keyOf app = req ->
  fst (Get (T := SimpleApp.t) req w) = inr app ->
  fst (Reconcile r req w) = Returns None ->
  faults (snd (Reconcile r req w)) = [] ->
  fst (Reconcile r req (snd (Reconcile r req w))) = Returns None
  ∧ cluster (snd (Reconcile r req (snd (Reconcile r req w))))
    = cluster (snd (Reconcile r req w))
  ∧ ∃ cs, calls (snd (Reconcile r req (snd (Reconcile r req w))))
          = calls (snd (Reconcile r req w)) ++ cs
          ∧ Forall (λ c, mutating c = false) cs.
Proof.
  intros Hwf Hkey HG Hok Hf.
  destruct (Reconcile_success_state r req w app Hwf Hkey HG Hok)
    as (gvk & d & s & a & Hreg & Hd & (Hrep & ec & ecs & Hcont & Himg)
        & Hs & (ep & eps & Hports & Hport & Htarget) & Hroute & Ha & Hm & Hsp & _ & Hready & Henv).
  set (w' := snd (Reconcile r req w)) in *. clearbody w'.
  assert (Hka : appKey a = req) by (unfold appKey; rewrite Hm; exact Hkey).
  assert (Hia : ingressKey a = ingressKey app) by (unfold ingressKey; by rewrite Hm).
  unfold Reconcile. rewrite Get_answered by done. cbn. rewrite Ha.
  rewrite (ensureDeployment_keeps r a _ gvk d ec ecs);
    [|done|done|by rewrite Hka|by rewrite Hsp|done|by rewrite Hsp].
  rewrite (ensureService_keeps r a _ gvk s ep eps);
    [|done|done|by rewrite Hka|done|by rewrite Hsp|by rewrite Hsp].
  destruct (decide (routeClass w = "")) as [Hrc|Hrc].
  - rewrite ensureIngress_skip by (by rewrite <- Hrc; apply routeClass_environ).
    rewrite bool_decide_eq_true_2 by done. cbn.
    split; [done|]. split; [done|]. eexists. rewrite <- !app_assoc. split; [done|].
    by repeat apply Forall_cons_2.
  - destruct (Hroute Hrc) as (i & Hi & Hclass).
    rewrite (ensureIngress_keeps r a _ gvk i);
      [|done|done| | |].
    + rewrite bool_decide_eq_true_2 by done. cbn.
      split; [done|]. split; [done|]. eexists. rewrite <- !app_assoc. split; [done|].
      by repeat apply Forall_cons_2.
    + intros Hrc'. apply Hrc. rewrite <- Hrc'. symmetry. by apply routeClass_environ.
    + by rewrite Hia.
    + assert (Hrc' : routeClass
               (after [CallGet KService (appKey a)]
                  (cluster (after [CallGet KDeployment (appKey a)]
                     (cluster (after [CallGet KSimpleApp req] (cluster w') w'))
                     (after [CallGet KSimpleApp req] (cluster w') w')))
                  (after [CallGet KDeployment (appKey a)]
                     (cluster (after [CallGet KSimpleApp req] (cluster w') w'))
                     (after [CallGet KSimpleApp req] (cluster w') w')))
               = routeClass w) by (by apply routeClass_environ).
      by rewrite Hrc'.
Qed.

(** ** Retrying after a partial pass *)

(** X8. Partial completion and retry. A declaration without dependents is
    reconciled with no route class configured; the API server answers
    until the create of the endpoint, which fails with [e]. The pass
    returns [e] and leaves the created workload in place and no endpoint.
    The next pass, with the server answering, returns nil, reads the
    workload without writing it, and creates the endpoint: only what was
    missing is made up for. *)
Theorem Reconcile_retry_creates_only_the_missing r req w app gvk e :
  registered r gvk ->
  routeClass w = "" ->
  simpleapps (cluster w) !! req = Some app ->
  keyOf app = req ->
  deployments (cluster w) !! req = None ->
  services (cluster w) !! req = None ->
  faults w = [None; None; None; None; Some e] ->
  let dep := stamped app gvk (Desired.deployment app) in
  let svc := stamped app gvk (Desired.service app) in
  fst (Reconcile r req w) = Returns (Some e)
  ∧ deployments (cluster (snd (Reconcile r req w))) = <[req := dep]> (deployments (cluster w))
  ∧ services (cluster (snd (Reconcile r req w))) = services (cluster w)
  ∧ fst (Reconcile r req (snd (Reconcile r req w))) = Returns None
  ∧ deployments (cluster (snd (Reconcile r req (snd (Reconcile r req w)))))
    = <[req := dep]> (deployments (cluster w))
  ∧ services (cluster (snd (Reconcile r req (snd (Reconcile r req w)))))
    = <[req := svc]> (services (cluster w))
  ∧ ∃ st, calls (snd (Reconcile r req (snd (Reconcile r req w))))
          = calls (snd (Reconcile r req w))
            ++ [CallGet KSimpleApp req; CallGet KDeployment req;
                CallGet KService req; CallCreate (AService svc)] ++ st
          ∧ Forall (λ c, isStatusWrite c = true) st.
Proof.
  intros Hs Hrc Happ Hkey Hnod Hnos Hf dep svc.
  assert (Hk : appKey app = req) by done.
  assert (Hrun1 : Reconcile r req w =
    (Returns (Some e),
     mkWorld (withDeployment req dep (cluster w)) (environ w) []
       (calls w ++ [CallGet KSimpleApp req; CallGet KDeployment req;
                    CallCreate (ADeployment dep);
                    CallGet KService req; CallCreate (AService svc)]))).
  { destruct w as [cl env fs cs0]. cbn in Hf, Happ, Hnod, Hnos, Hrc. subst fs.
    unfold appKey, keyOf, ObjectMeta.key in Hk, Hkey. cbn in Hk, Hkey.
    unfold Reconcile, Get at 1. unfold pop_fault, log. cbn. rewrite Happ.
    unfold ensureDeployment. rewrite SetControllerReference_fresh by done.
    rewrite (GVKForObject_registered _ _ Hs).
    unfold Get, Create, pop_fault, log, set_cluster, keyOf, ObjectMeta.key. cbn.
    rewrite Hk, Hnod. cbn. rewrite Hnod.
    unfold ensureService. rewrite SetControllerReference_fresh by done.
    rewrite (GVKForObject_registered _ _ Hs).
    unfold Get, Create, pop_fault, log, set_cluster, keyOf, ObjectMeta.key. cbn.
    rewrite Hk, Hnos. cbn.
    unfold withDeployment. cbn. by rewrite <- !app_assoc. }
  rewrite Hrun1. cbn.
  split; [done|]. split; [done|]. split; [done|].
  set (w1 := mkWorld _ _ _ _).
  assert (Hrun2 : ∃ st,
    fst (Reconcile r req w1) = Returns None
    ∧ deployments (cluster (snd (Reconcile r req w1))) = deployments (cluster w1)
    ∧ services (cluster (snd (Reconcile r req w1))) = <[req := svc]> (services (cluster w1))
    ∧ calls (snd (Reconcile r req w1))
      = calls w1 ++ [CallGet KSimpleApp req; CallGet KDeployment req;
                     CallGet KService req; CallCreate (AService svc)] ++ st
    ∧ Forall (λ c, isStatusWrite c = true) st).
  { unfold Reconcile. rewrite Get_answered by done. cbn. rewrite Happ.
    rewrite (ensureDeployment_keeps r app _ gvk dep
               (Container.mk "app" (SimpleAppSpec.Image (SimpleApp.Spec app)) PullIfNotPresent
                  [ContainerPort.mk (SimpleAppSpec.ContainerPort (SimpleApp.Spec app))]) []);
      [|done|done|by rewrite Hk; apply lookup_insert_eq|done|done|done].
    rewrite (ensureService_creates r app _ gvk); [|done|done|by rewrite Hk].
    rewrite ensureIngress_skip by done. fold svc. rewrite Hk.
    case_bool_decide; cbn.
    - exists []. rewrite <- !app_assoc. by split_and!.
    - unfold StatusUpdate, pop_fault, log, after, set_cluster. cbn.
      change (keyOf (setReadyReplicas _ app)) with (keyOf app). rewrite Hkey, Happ. cbn.
      eexists [_]. rewrite <- !app_assoc. split_and!; try done.
      by apply Forall_cons_2; [|apply Forall_nil_2]. }
  destruct Hrun2 as (st & Hok2 & Hd2 & Hs2 & Hc2 & Hst).
  split; [done|]. split; [by rewrite Hd2|]. split; [by rewrite Hs2|]. by exists st.
Qed.

(** ** Order of the calls, failures before and at the read *)

(** X9. The calls of a pass come in a fixed order, whatever the API
    server answers: the fetch of the declaration first, then the calls
    on the workload, then those on the endpoint, then those on the route,
    and last at most one status write. No call on a later kind ever
    precedes a call on an earlier one. *)
Theorem Reconcile_call_order r req w :
  ∃ cs1 cs2 cs3 st,
    calls (snd (Reconcile r req w))
    = calls w ++ [CallGet KSimpleApp req] ++ cs1 ++ cs2 ++ cs3 ++ st
    ∧ Forall (λ c, callKind c = KDeployment ∧ isStatusWrite c = false) cs1
    ∧ Forall (λ c, callKind c = KService ∧ isStatusWrite c = false) cs2
    ∧ Forall (λ c, callKind c = KIngress ∧ isStatusWrite c = false) cs3
    ∧ (st = [] ∨ ∃ a, st = [CallStatusUpdate (ASimpleApp a)]).
Proof.
  assert (Hweak : ∀ app k cs, Forall (dependentCall app k) cs ->
            Forall (λ c, callKind c = k ∧ isStatusWrite c = false) cs).
  { intros app k cs HF. eapply Forall_impl; [exact HF|]. by intros c (? & ? & _). }
  destruct (Reconcile_anatomy r req w) as (cs & Hc & _ & [[-> _]|(app & _ & Hshape)]).
  - exists [], [], [], []. split; [done|]. split_and!; try apply Forall_nil_2. by left.
  - destruct Hshape as (cs1 & cs2 & cs3 & st & -> & H1 & H2 & H3 & _ & Hst).
    exists cs1, cs2, cs3, st. split; [done|]. split_and!; eauto.
    destruct Hst as [[-> _]|(n & -> & _)]; eauto.
Qed.

(** X10. When the scheme does not resolve the SimpleApp type to one kind,
    the owner reference cannot be built: every pass that fetches a
    declaration returns that error right after the fetch. No dependent
    is read, created or updated and the store is as before. *)
Theorem Reconcile_without_registered_kind r req w app e :
  GVKForObject (scheme r) = inl e ->
  fst (Get (T := SimpleApp.t) req w) = inr app ->
  Reconcile r req w = (Returns (Some e), snd (Get (T := SimpleApp.t) req w))
  ∧ calls (snd (Reconcile r req w)) = calls w ++ [CallGet KSimpleApp req]
  ∧ cluster (snd (Reconcile r req w)) = cluster w.
Proof.
  intros Hgvk HG.
  pose proof (Get_simpleapp_summary req w) as (Hc & _ & Hcl & _).
  assert (Hrun : Reconcile r req w = (Returns (Some e), snd (Get (T := SimpleApp.t) req w))).
  { unfold Reconcile. destruct (Get req w) as [[e'|app'] w0]; cbn in *; [done|].
    unfold ensureDeployment. rewrite SetControllerReference_fresh by done.
    by rewrite Hgvk. }
  rewrite Hrun. by split_and!.
Qed.

(** X11. A failed read never leads to a write. When the read of the
    dependent fails with an error other than not-found, the ensure
    operation returns that very error; the read is its only call and the
    store is unchanged. (For the route this is with a route class
    configured; without one there is no read at all.) *)
Theorem ensure_read_failure_is_returned op r cr w gvk e fs :
  registered r gvk ->
  (op = OpIngress -> routeClass w ≠ "") ->
  faults w = Some e :: fs ->
  e ≠ ErrNotFound ->
  runEnsure op r cr w
  = (Returns (Some e),
     mkWorld (cluster w) (environ w) fs (calls w ++ [CallGet (opKind op) (opKey op cr)])).
Proof.
  intros Hs Hrc Hf Hne.
  destruct w as [cl env fs0 cs0]. cbn in Hf. subst fs0.
  destruct op; cbn.
  - unfold ensureDeployment. rewrite SetControllerReference_fresh by done.
    rewrite (GVKForObject_registered _ _ Hs).
    unfold Get, pop_fault, log, keyOf, appKey. cbn. by destruct e.
  - unfold ensureService. rewrite SetControllerReference_fresh by done.
    rewrite (GVKForObject_registered _ _ Hs).
    unfold Get, pop_fault, log, keyOf, appKey. cbn. by destruct e.
  - specialize (Hrc eq_refl). unfold ensureIngress.
    unfold routeClass in Hrc. rewrite bool_decide_eq_false_2 by done.
    rewrite SetControllerReference_fresh by done.
    rewrite (GVKForObject_registered _ _ Hs).
    unfold Get, pop_fault, log, keyOf, ingressKey. cbn. by destruct e.
Qed.

(** ** The route that ensureIngress creates *)

(** X12. With a route class configured, no route stored under the route
    key and the API server answering, ensureIngress creates one route and
    returns it: named <name>-ingress in the declaration's namespace,
    owned by the declaration, with the configured class both in
    spec.ingressClassName and in the kubernetes.io/ingress.class
    annotation, and with the single rule host <name>.local, path "/"
    (prefix) to the service <name> on servicePort. *)
Theorem ensureIngress_creates_route r cr w gvk :
  registered r gvk ->
  faults w = [] ->
  routeClass w ≠ "" ->
  ingresses (cluster w) !! ingressKey cr = None ->
  let name := ObjectMeta.Name (SimpleApp.Meta cr) in
  ∃ i, ensureIngress r cr w =
         (Returns (Some i, None),
          after [CallGet KIngress (ingressKey cr); CallCreate (AIngress i)]
            (withIngress (ingressKey cr) i (cluster w)) w)
       ∧ keyOf i = ingressKey cr
       ∧ ObjectMeta.Name (Ingress.Meta i) = name +:+ "-ingress"
       ∧ ObjectMeta.Namespace (Ingress.Meta i) = ObjectMeta.Namespace (SimpleApp.Meta cr)
       ∧ ownedBy cr (Ingress.Meta i)
       ∧ IngressSpec.IngressClassName (Ingress.Spec i) = Some (routeClass w)
       ∧ legacyClass i = Some (routeClass w)
       ∧ IngressSpec.Rules (Ingress.Spec i)
         = [IngressRule.mk (name +:+ ".local")
              (Some (HTTPIngressRuleValue.mk
                 [HTTPIngressPath.mk "/" (Some PathTypePrefix)
                    (IngressBackend.mk
                       (Some (IngressServiceBackend.mk name
                          (ServiceBackendPort.mk
                             (SimpleAppSpec.ServicePort (SimpleApp.Spec cr))))))]))].
Proof.
  intros Hs Hf Hrc Habs name.
  exists (stamped cr gvk (Desired.ingress cr (routeClass w))).
  split; [by apply ensureIngress_creates|].
  split_and!; try done; first [apply stamped_ownedBy_ingress|apply lookup_singleton_eq].
Qed.

(** ** The earlier copy of the controller *)

Lemma ensureService_agrees r cr w :
  (∀ s, services (cluster w) !! appKey cr = Some s -> endpointConverged cr s) ->
  ensureService r cr w = Legacy.ensureService r cr w.
Proof.
  intros Hconv. unfold ensureService, Legacy.ensureService.
  rewrite SetControllerReference_fresh by done.
  destruct (GVKForObject (scheme r)) as [e|gvk]; [done|].
  destruct w as [cl env fs cs0]. unfold appKey, endpointConverged in *.
  unfold Get, pop_fault, log, keyOf. cbn in *.
  destruct fs as [|[e|] fs]; cbn; try done.
  all: destruct (services cl !! _) as [s|] eqn:Hl; cbn; [|done].
  all: destruct (Hconv s eq_refl) as (ep & eps & -> & Hp & Ht); cbn.
  all: by rewrite !bool_decide_eq_true_2.
Qed.

(** X13. The controller with routes agrees with its earlier copy where
    the two can agree: with no route class configured, and no endpoint
    stored under the key or one whose first port already maps
    servicePort to containerPort, both Reconcile functions return the
    same result, make the same calls and leave the same store, whatever
    the API server answers. *)
Theorem Reconcile_agrees_with_earlier_copy r req w :
  routeClass w = "" ->
  (∀ app s, simpleapps (cluster w) !! req = Some app ->
            services (cluster w) !! appKey app = Some s -> endpointConverged app s) ->
  Reconcile r req w = Legacy.Reconcile r req w.
Proof.
  intros Hrc Hconv. unfold Reconcile, Legacy.Reconcile.
  pose proof (Get_simpleapp_summary req w) as (_ & HGe & HGcl & HGapp).
  destruct (Get req w) as [[e|app] w0]; cbn in *; [done|].
  specialize (HGapp app eq_refl).
  pose proof (ensureDeployment_summary r app w0) as (_ & _ & He1 & _ & Hs1 & _).
  destruct (ensureDeployment r app w0) as [[[d [e1|]]|] w1]; cbn in *; try done.
  rewrite <- (ensureService_agrees r app w1)
    by (intros s Hl; apply (Hconv app s HGapp); by rewrite <- HGcl, <- Hs1).
  pose proof (ensureService_summary r app w1) as (_ & _ & He2 & _).
  destruct (ensureService r app w1) as [[[s [e2|]]|] w2]; cbn in *; try done.
  rewrite ensureIngress_skip; [done|].
  rewrite <- Hrc. apply routeClass_environ. congruence.
Qed.

Lemma Legacy_ensureService_summary r cr w :
  ∃ cs, calls (snd (Legacy.ensureService r cr w)) = calls w ++ cs
        ∧ environ (snd (Legacy.ensureService r cr w)) = environ w
        ∧ simpleapps (cluster (snd (Legacy.ensureService r cr w))) = simpleapps (cluster w)
        ∧ deployments (cluster (snd (Legacy.ensureService r cr w))) = deployments (cluster w)
        ∧ ingresses (cluster (snd (Legacy.ensureService r cr w))) = ingresses (cluster w)
        ∧ Forall (λ c, callKind c = KService ∧ ∀ o, c ≠ CallUpdate o) cs
        ∧ ∀ k s, services (cluster w) !! k = Some s ->
                 services (cluster (snd (Legacy.ensureService r cr w))) !! k = Some s.
Proof.
  unfold Legacy.ensureService. rewrite SetControllerReference_fresh by done.
  destruct (GVKForObject (scheme r)) as [e|gvk].
  { exists []. cbn. rewrite app_nil_r. by split_and!. }
  destruct w as [cl env fs cs0].
  unfold Get, Create, pop_fault, log, set_cluster, keyOf. cbn.
  repeat client_step.
  all: eexists; cbn; rewrite <- ?app_assoc; cbn.
  all: do 5 (split; [reflexivity|]).
  all: split; [by repeat (apply Forall_cons_2; [by split|]); apply Forall_nil_2|].
  all: try done.
  all: intros k s Hl; rewrite lookup_insert_ne; [done|congruence].
Qed.

(** X14. The earlier copy of the controller never repairs an endpoint:
    whatever the declaration, the environment and the answers of the API
    server, its ensureService makes no update call and leaves every
    stored endpoint exactly as it was; port drift stays. *)
Theorem Legacy_ensureService_never_updates r cr w :
  (∃ cs, calls (snd (Legacy.ensureService r cr w)) = calls w ++ cs
         ∧ Forall (λ c, callKind c = KService ∧ ∀ o, c ≠ CallUpdate o) cs)
  ∧ ∀ k s, services (cluster w) !! k = Some s ->
           services (cluster (snd (Legacy.ensureService r cr w))) !! k = Some s.
Proof.
  destruct (Legacy_ensureService_summary r cr w) as (cs & Hc & _ & _ & _ & _ & HF & Hkeep).
  split; [by exists cs|done].
Qed.

(** ** Stored objects the code cannot handle *)

(** X15. The comparisons of ensureDeployment and ensureService dereference
    and index the stored object unchecked. When the workload read has no
    replica count or no container, ensureDeployment panics; when the
    endpoint read has no port, ensureService panics. In both cases the
    read is the only call made and nothing is written. *)
Theorem ensure_panics_on_incomplete_object r cr w gvk :
  registered r gvk ->
  faults w = [] ->
  (∀ d, deployments (cluster w) !! appKey cr = Some d ->
        deploymentReplicas d = None ∨ deploymentContainers d = [] ->
        ensureDeployment r cr w
        = (Panics, after [CallGet KDeployment (appKey cr)] (cluster w) w))
  ∧ (∀ s, services (cluster w) !! appKey cr = Some s ->
          ServiceSpec.Ports (Service.Spec s) = [] ->
          ensureService r cr w
          = (Panics, after [CallGet KService (appKey cr)] (cluster w) w)).
Proof.
  intros Hs Hf. split.
  - intros d Hex Hbad. unfold ensureDeployment. run_answered w Hf Hs.
    rewrite Hex. cbn. destruct Hbad as [-> | Hc]; [done|].
    rewrite Hc. by destruct (deploymentReplicas d).
  - intros s Hex Hbad. unfold ensureService. run_answered w Hf Hs.
    rewrite Hex. cbn. by rewrite Hbad.
Qed.

(** ** The scenarios *)

Lemma failed_ensure_changes_nothing_witness :
  cluster (snd (runEnsure OpDeployment Example.r (Example.app "a") Scenario.failingRead))
  = cluster Scenario.failingRead.
Proof.
  apply (failed_ensure_changes_nothing OpDeployment Example.r (Example.app "a")
           Scenario.failingRead).
  vm_compute. discriminate.
Defined.

Lemma driftedWorld_under_own_keys : storedUnderOwnKeys (cluster Example.driftedWorld).
Proof.
  split_and!; [by apply singleton_under_own_key
              |by apply singleton_under_own_key
              |by apply empty_under_own_key].
Qed.

Lemma world0_under_own_keys : storedUnderOwnKeys (cluster (Example.world0 "a" ∅)).
Proof. split_and!; by apply empty_under_own_key. Qed.

Lemma Reconcile_touches_only_own_objects_witness :
  cluster (snd (Reconcile Example.r Example.key Example.driftedWorld))
  = cluster Example.driftedWorld
  ∨ ∃ app, simpleapps (cluster Example.driftedWorld) !! Example.key = Some app
           ∧ differsOnlyFor app (cluster Example.driftedWorld)
               (cluster (snd (Reconcile Example.r Example.key Example.driftedWorld))).
Proof.
  apply (Reconcile_touches_only_own_objects Example.r Example.key Example.driftedWorld).
  apply driftedWorld_under_own_keys.
Defined.

Lemma Reconcile_success_converged_witness :
  ∃ d s a,
    deployments (cluster (snd (Reconcile Example.r Example.key Example.driftedWorld)))
      !! Example.key = Some d
    ∧ workloadConverged (Example.app "a") d
    ∧ services (cluster (snd (Reconcile Example.r Example.key Example.driftedWorld)))
        !! Example.key = Some s
    ∧ endpointConverged (Example.app "a") s
    ∧ (routeClass Example.driftedWorld ≠ "" ->
       ∃ i, ingresses (cluster (snd (Reconcile Example.r Example.key Example.driftedWorld)))
              !! ingressKey (Example.app "a") = Some i
            ∧ (IngressSpec.IngressClassName (Ingress.Spec i)
               = Some (routeClass Example.driftedWorld)
               ∨ IngressSpec.IngressClassName (Ingress.Spec i) = None))
    ∧ simpleapps (cluster (snd (Reconcile Example.r Example.key Example.driftedWorld)))
        !! Example.key = Some a
    ∧ SimpleApp.Meta a = SimpleApp.Meta (Example.app "a")
    ∧ SimpleApp.Spec a = SimpleApp.Spec (Example.app "a")
    ∧ SimpleAppStatus.ServiceStatus (SimpleApp.Status a)
      = SimpleAppStatus.ServiceStatus (SimpleApp.Status (Example.app "a"))
    ∧ SimpleAppStatus.ReadyReplicas (SimpleApp.Status a)
      = DeploymentStatus.ReadyReplicas (Deployment.Status d).
Proof.
  apply (Reconcile_success_converged Example.r Example.key Example.driftedWorld
           (Example.app "a")).
  - apply driftedWorld_under_own_keys.
  - reflexivity.
  - vm_compute. reflexivity.
  - vm_compute. reflexivity.
Defined.

Lemma Reconcile_twice_no_writes_witness :
  cluster (snd (Reconcile Example.r Example.key
                  (snd (Reconcile Example.r Example.key Example.driftedWorld))))
  = cluster (snd (Reconcile Example.r Example.key Example.driftedWorld)).
Proof.
  apply (Reconcile_twice_no_writes Example.r Example.key Example.driftedWorld
           (Example.app "a")).
  - apply driftedWorld_under_own_keys.
  - reflexivity.
  - vm_compute. reflexivity.
  - vm_compute. reflexivity.
  - vm_compute. reflexivity.
Defined.

Lemma Reconcile_retry_creates_only_the_missing_witness :
  fst (Reconcile Example.r Example.key Scenario.failingEndpointCreate)
  = Returns (Some ErrConflict).
Proof.
  apply (Reconcile_retry_creates_only_the_missing Example.r Example.key
           Scenario.failingEndpointCreate (Example.app "a") Example.gvk ErrConflict);
    reflexivity.
Defined.

Lemma Reconcile_without_registered_kind_witness :
  cluster (snd (Reconcile Scenario.unregistered Example.key (Example.world0 "a" ∅)))
  = cluster (Example.world0 "a" ∅).
Proof.
  apply (Reconcile_without_registered_kind Scenario.unregistered Example.key
           (Example.world0 "a" ∅) (Example.app "a")
           (ErrOther "no kind is registered for the type")).
  - reflexivity.
  - vm_compute. reflexivity.
Defined.

Lemma ensure_read_failure_is_returned_witness :
  runEnsure OpService Example.r (Example.app "a") Scenario.failingRead
  = (Returns (Some ErrConflict),
     mkWorld (cluster Scenario.failingRead) (environ Scenario.failingRead) []
       (calls Scenario.failingRead
        ++ [CallGet (opKind OpService) (opKey OpService (Example.app "a"))])).
Proof.
  apply (ensure_read_failure_is_returned OpService Example.r (Example.app "a")
           Scenario.failingRead Example.gvk ErrConflict []); try reflexivity.
  - discriminate.
  - discriminate.
Defined.

Lemma ensureIngress_creates_route_witness :
  ∃ i, ensureIngress Example.r (Example.app "a") Scenario.routelessWorld =
         (Returns (Some i, None),
          after [CallGet KIngress (ingressKey (Example.app "a")); CallCreate (AIngress i)]
            (withIngress (ingressKey (Example.app "a")) i (cluster Scenario.routelessWorld))
            Scenario.routelessWorld)
       ∧ IngressSpec.IngressClassName (Ingress.Spec i) = Some "nginx".
Proof.
  destruct (ensureIngress_creates_route Example.r (Example.app "a")
              Scenario.routelessWorld Example.gvk) as (i & Hrun & _ & _ & _ & _ & Hclass & _).
  - reflexivity.
  - reflexivity.
  - vm_compute. discriminate.
  - reflexivity.
  - exists i. split; [exact Hrun|exact Hclass].
Defined.

Lemma Reconcile_agrees_with_earlier_copy_witness :
  Reconcile Example.r Example.key (Example.world0 "a" ∅)
  = Legacy.Reconcile Example.r Example.key (Example.world0 "a" ∅).
Proof.
  apply (Reconcile_agrees_with_earlier_copy Example.r Example.key (Example.world0 "a" ∅)).
  - reflexivity.
  - intros app s _ Hl. cbn in Hl. by rewrite lookup_empty in Hl.
Defined.

Lemma ensure_panics_on_incomplete_object_witness :
  ensureService Example.r (Example.app "a") Scenario.portlessWorld
  = (Panics,
     after [CallGet KService (appKey (Example.app "a"))]
       (cluster Scenario.portlessWorld) Scenario.portlessWorld).
Proof.
  apply (ensure_panics_on_incomplete_object Example.r (Example.app "a")
           Scenario.portlessWorld Example.gvk eq_refl eq_refl)
    with (s := Scenario.portlessService); reflexivity.
Defined.

(** * The dashboard handlers *)

Lemma requiredFields_complete TrimSpace (r : Dashboard.Request) :
  Forall (λ f, TrimSpace (Dashboard.FormValue r f) ≠ "") Dashboard.requiredFields
  ↔ bool_decide (TrimSpace (Dashboard.FormValue r "name") = "")
    || bool_decide (TrimSpace (Dashboard.FormValue r "image") = "")
    || bool_decide (TrimSpace (Dashboard.FormValue r "replicas") = "")
    || bool_decide (TrimSpace (Dashboard.FormValue r "containerPort") = "")
    || bool_decide (TrimSpace (Dashboard.FormValue r "servicePort") = "") = false.
Proof.
  unfold Dashboard.requiredFields. rewrite !Forall_cons, Forall_nil.
  repeat case_bool_decide; cbn; intuition congruence.
Qed.

(** X16. handleHome touches the host (writes the manifest, runs kubectl)
    exactly when index.html loaded, the request is a POST and each of
    name, image, replicas, containerPort and servicePort is non-empty
    after trimming. In every other case it only renders: an empty
    namespace is no obstacle, an empty required field is. *)
Theorem handleHome_acts_iff_complete_post TrimSpace Join host r :
  snd (Dashboard.handleHome TrimSpace Join host r) ≠ []
  ↔ Dashboard.ParseFiles_ok host = true
    ∧ Dashboard.Method r = "POST"
    ∧ Forall (λ f, TrimSpace (Dashboard.FormValue r f) ≠ "") Dashboard.requiredFields.
Proof.
  rewrite requiredFields_complete. unfold Dashboard.handleHome.
  destruct (Dashboard.ParseFiles_ok host); cbn; [|intuition congruence].
  case_bool_decide; cbn; [|intuition congruence].
  destruct (_ || _ || _ || _ || _) eqn:Hv; cbn; [intuition congruence|].
  destruct (Dashboard.WriteFile host _ _); cbn; [intuition congruence|].
  destruct (Dashboard.CombinedOutput host _); cbn. intuition congruence.
Qed.

(** X17. What handleHome does to the host has one of three shapes:
    nothing; the write of the manifest alone, when that write failed; or
    the write of /tmp/<name>.yaml, then kubectl apply -f on that very
    path, then the removal of that path. kubectl never runs on a file
    that could not be written, and the temporary file is removed after
    every run of kubectl, whatever kubectl returned. The manifest names
    the namespace "default" when the form left it empty. *)
Theorem handleHome_write_apply_remove TrimSpace Join host r :
  let name := TrimSpace (Dashboard.FormValue r "name") in
  let ns := TrimSpace (Dashboard.FormValue r "namespace") in
  let path := Join "/tmp" (name +:+ ".yaml") in
  let content :=
    Dashboard.yamlContent name (if bool_decide (ns = "") then "default" else ns)
      (TrimSpace (Dashboard.FormValue r "image"))
      (TrimSpace (Dashboard.FormValue r "replicas"))
      (TrimSpace (Dashboard.FormValue r "containerPort"))
      (TrimSpace (Dashboard.FormValue r "servicePort")) in
  snd (Dashboard.handleHome TrimSpace Join host r) = []
  ∨ (snd (Dashboard.handleHome TrimSpace Join host r) = [Dashboard.ActWriteFile path content]
     ∧ ∃ err, Dashboard.WriteFile host path content = Some err
              ∧ fst (Dashboard.handleHome TrimSpace Join host r)
                = Dashboard.RespPage (Some (Dashboard.mkPage
                    "Internal Error: Could not write YAML file" err true)))
  ∨ (snd (Dashboard.handleHome TrimSpace Join host r)
     = [Dashboard.ActWriteFile path content;
        Dashboard.ActExec ["kubectl"; "apply"; "-f"; path];
        Dashboard.ActRemove path]
     ∧ Dashboard.WriteFile host path content = None).
Proof.
  intros name ns path content. unfold Dashboard.handleHome.
  destruct (Dashboard.ParseFiles_ok host); cbn; [|by left].
  case_bool_decide; cbn; [|by left].
  destruct (_ || _ || _ || _ || _); cbn; [by left|].
  fold name ns. fold path. fold content.
  destruct (Dashboard.WriteFile host path content) as [err|] eqn:Hw; cbn.
  - right. left. eauto.
  - right. right. by destruct (Dashboard.CombinedOutput host _).
Qed.

(** X18. How handleHome reports the run of kubectl apply: the page shows
    kubectl's output and is marked as an error exactly when kubectl
    failed and its output contains none of "created", "configured" and
    "unchanged". A failed kubectl whose output contains one of these
    words is reported as "Application Deployed Successfully!". *)
Theorem handleHome_reports_failure_iff TrimSpace Join host r :
  Dashboard.ParseFiles_ok host = true ->
  Dashboard.Method r = "POST" ->
  Forall (λ f, TrimSpace (Dashboard.FormValue r f) ≠ "") Dashboard.requiredFields ->
  let name := TrimSpace (Dashboard.FormValue r "name") in
  let ns := TrimSpace (Dashboard.FormValue r "namespace") in
  let path := Join "/tmp" (name +:+ ".yaml") in
  let content :=
    Dashboard.yamlContent name (if bool_decide (ns = "") then "default" else ns)
      (TrimSpace (Dashboard.FormValue r "image"))
      (TrimSpace (Dashboard.FormValue r "replicas"))
      (TrimSpace (Dashboard.FormValue r "containerPort"))
      (TrimSpace (Dashboard.FormValue r "servicePort")) in
  Dashboard.WriteFile host path content = None ->
  let output := fst (Dashboard.CombinedOutput host ["kubectl"; "apply"; "-f"; path]) in
  let failed := snd (Dashboard.CombinedOutput host ["kubectl"; "apply"; "-f"; path]) in
  let bad :=
    failed && negb (Dashboard.Contains output "created"
                    || Dashboard.Contains output "configured"
                    || Dashboard.Contains output "unchanged") in
  fst (Dashboard.handleHome TrimSpace Join host r)
  = Dashboard.RespPage (Some (Dashboard.mkPage
      (if bad then "Deployment Failed" else "Application Deployed Successfully!")
      output bad)).
Proof.
  intros Ht Hm Hfields name ns path content Hw output failed bad.
  apply requiredFields_complete in Hfields.
  unfold Dashboard.handleHome. rewrite Ht, Hm. cbn.
  rewrite bool_decide_eq_true_2 by done. cbn. rewrite Hfields. cbn.
  fold name ns. fold path. fold content. rewrite Hw.
  subst bad output failed.
  destruct (Dashboard.CombinedOutput host _) as [out f]. cbn.
  by destruct (Dashboard.Contains out "created"), (Dashboard.Contains out "configured"),
    (Dashboard.Contains out "unchanged"), f.
Qed.

Lemma handleHome_reports_failure_iff_witness :
  fst (Dashboard.handleHome id Dashboard.sampleJoin Dashboard.sampleHost Dashboard.sampleForm)
  = Dashboard.RespPage (Some (Dashboard.mkPage
      "Application Deployed Successfully!" "simpleapp.apps.myapp.io/a unchanged" false)).
Proof.
  apply (handleHome_reports_failure_iff id Dashboard.sampleJoin Dashboard.sampleHost
           Dashboard.sampleForm); try reflexivity.
  unfold Dashboard.requiredFields.
  repeat (apply Forall_cons_2; [vm_compute; discriminate|]). apply Forall_nil_2.
Defined.

(** X19. handleDelete runs kubectl exactly when the request is a DELETE
    whose name and namespace parameters are both non-empty, and then it
    runs kubectl delete simpleapp <name> -n <namespace> once. Another
    method is answered 405 and a missing parameter 400, both without any
    command; a failing kubectl gives 500 with its output, a succeeding
    one 200. *)
Theorem handleDelete_runs_kubectl_iff host r :
  let name := Dashboard.QueryGet r "name" in
  let ns := Dashboard.QueryGet r "namespace" in
  let argv := ["kubectl"; "delete"; "simpleapp"; name; "-n"; ns] in
  (Dashboard.Method r ≠ "DELETE" ->
   Dashboard.handleDelete host r = (Dashboard.RespError "Method Not Allowed" 405, []))
  ∧ (Dashboard.Method r = "DELETE" -> name = "" ∨ ns = "" ->
     Dashboard.handleDelete host r
     = (Dashboard.RespError "Missing 'name' or 'namespace' parameter" 400, []))
  ∧ (Dashboard.Method r = "DELETE" -> name ≠ "" -> ns ≠ "" ->
     snd (Dashboard.handleDelete host r) = [Dashboard.ActExec argv]
     ∧ fst (Dashboard.handleDelete host r)
       = if snd (Dashboard.CombinedOutput host argv)
         then Dashboard.RespError
                ("Failed to delete resource: " +:+ fst (Dashboard.CombinedOutput host argv)) 500
         else Dashboard.RespWrite None (Some 200) "Resource deleted successfully")
  ∧ (snd (Dashboard.handleDelete host r) ≠ []
     ↔ Dashboard.Method r = "DELETE" ∧ name ≠ "" ∧ ns ≠ "").
Proof.
  intros name ns argv. unfold Dashboard.handleDelete. fold name ns. fold argv.
  clearbody argv. clearbody name ns.
  destruct (Dashboard.CombinedOutput host argv) as [out f]. cbn.
  repeat case_bool_decide; cbn; destruct f; cbn; intuition (try congruence).
Qed.
